(** * Removal surrogate model, stochastic search and attribution (src/src/App.js)

    A shallow embedding of the simulation engine of [App.js]:
    [predictRemoval], [bayesianOptimize] and [computeSHAP], with the two
    registries [MODEL_PARAMS] and [POLLUTANT_MOD], and of the data the
    panels compute from them: [kineticData], [phData], the convergence
    line, [scatterData], [heatmapData] with the colour of its cells, and
    [cycleData].

    Number model.  JavaScript numbers are embedded as mathematical reals
    extended with [NaN]: arithmetic is exact (no rounding error, no overflow,
    no infinities besides the initial [-Infinity] of [bestScore]), and [NaN]
    arises only where the source does arithmetic on [undefined].  The numeric
    arguments of the three functions are reals.

    Overflow.  [Math.exp] is the one operation of the source that leaves the
    finite range at inputs of moderate size.  The module [Overflow] embeds
    [predictRemoval] a second time, over numbers with Infinity, -Infinity
    and NaN, where [Math.exp] overflows above its threshold.  On the
    physical domain (a pH between 0 and 14, a concentration and a contact
    time that are not negative) the two embeddings agree
    ([overflow_agrees]); outside it the second one returns NaN or Infinity
    where the source does.  The statements about [predictRemoval] that
    hold on the physical domain only are made on the embedding with
    overflow; the rounding of binary64 is modelled by neither.

    Registry model.  Both registries are object literals, read with
    [table[key]].  Such a read first looks at the own properties of the
    literal and then at the members every object literal inherits from
    [Object.prototype]; only when both fail is the result [undefined].

    Random source.  [Math.random] is a sequence of reals: the k-th call of a
    run of [bayesianOptimize] returns [random k].  The loop threads the number
    of calls made so far through its state.

    Arguments.  The iteration count is a natural number, a range is a pair of
    reals, an identifier is a string.  The optional [competition] argument of
    [predictRemoval] is passed explicitly ([false] where the source omits it).

    Sorting.  [Array.prototype.sort] is a stable sort; it is modelled by
    stable insertion, which gives the result of every stable sort whenever
    the comparison function is consistent. *)

From Stdlib Require Import Reals Lra Lia ZArith List String Ascii Bool Permutation Sorted.
Import ListNotations.

#[local] Open Scope string_scope.
#[local] Open Scope R_scope.

(** ** Numbers *)

Module JS.

Inductive num : Type :=
| Num (r : R)
| NaN.

Definition lift1 (f : R -> R) (x : num) : num :=
  match x with
  | Num a => Num (f a)
  | NaN => NaN
  end.

Definition lift2 (f : R -> R -> R) (x y : num) : num :=
  match x, y with
  | Num a, Num b => Num (f a b)
  | _, _ => NaN
  end.

Definition add := lift2 Rplus.
Definition sub := lift2 Rminus.
Definition mul := lift2 Rmult.
(* every divisor in the source is a non-zero real (100, 3, or 1 + e^x) *)
Definition div := lift2 Rdiv.
Definition neg := lift1 Ropp.

(* comparisons: any comparison with NaN is false *)
Definition ge (x y : num) : bool :=
  match x, y with
  | Num a, Num b => if Rle_dec b a then true else false
  | _, _ => false
  end.

Definition gt (x y : num) : bool :=
  match x, y with
  | Num a, Num b => if Rlt_dec b a then true else false
  | _, _ => false
  end.

Definition Math_exp := lift1 exp.
Definition Math_abs := lift1 Rabs.
Definition Math_min := lift2 Rmin.
Definition Math_max := lift2 Rmax.
Definition Math_pow (x : num) (n : nat) : num := lift1 (fun a => a ^ n) x.

(* Math.round: nearest integer, halves towards +infinity *)
Definition round_half_up (a : R) : R := IZR (Zfloor (a + 1 / 2)).
Definition Math_round := lift1 round_half_up.

(* [+x.toFixed(d)] on a real: magnitudes from 10^21 on print in exponent
   notation and parse back unchanged; below that the magnitude is rounded to
   d decimals, halves upwards, and the sign is restored. *)
Definition toFixedR (d : nat) (a : R) : R :=
  if Rle_dec (10 ^ 21) (Rabs a) then a
  else if Rle_dec 0 a then IZR (Zfloor (a * 10 ^ d + 1 / 2)) / 10 ^ d
  else - (IZR (Zfloor (- a * 10 ^ d + 1 / 2)) / 10 ^ d).

Definition toFixed (d : nat) : num -> num := lift1 (toFixedR d).

(* order and range statements about numbers; they fail on NaN, as every
   comparison with NaN does *)
Definition num_le (x y : num) : Prop :=
  match x, y with
  | Num a, Num b => a <= b
  | _, _ => False
  end.

Definition within (lo hi : R) (x : num) : Prop :=
  match x with
  | Num a => lo <= a <= hi
  | NaN => False
  end.

Definition is_positive (x : num) : Prop :=
  match x with
  | Num a => 0 < a
  | NaN => False
  end.

(* the value of a variable that starts at -Infinity and is only ever
   overwritten by a number that compared greater *)
Inductive bound : Type :=
| NegInfinity
| Finite (r : R).

Definition above (x : num) (b : bound) : bool :=
  match x, b with
  | Num a, NegInfinity => true
  | Num a, Finite r => if Rlt_dec r a then true else false
  | NaN, _ => false
  end.

(* [b = x] after [above x b] held, so that [x] is a number *)
Definition as_bound (x : num) : bound :=
  match x with
  | Num a => Finite a
  | NaN => NegInfinity
  end.

(* result of [table[key]] on an object literal *)
Inductive slot (A : Type) : Type :=
| Own (a : A)
| Inherited
| Undefined.

Arguments Own {A} a.
Arguments Inherited {A}.
Arguments Undefined {A}.

(* members of Object.prototype: functions, and the [__proto__] accessor
   whose value is Object.prototype itself; all of them are truthy and none
   has any of the fields the registries use *)
Definition Object_prototype : list string :=
  [ "constructor"; "hasOwnProperty"; "isPrototypeOf"; "propertyIsEnumerable";
    "toLocaleString"; "toString"; "valueOf"; "__proto__";
    "__defineGetter__"; "__defineSetter__"; "__lookupGetter__";
    "__lookupSetter__" ].

Definition get {A : Type} (table : list (string * A)) (key : string) : slot A :=
  match find (fun kv => String.eqb (fst kv) key) table with
  | Some kv => Own (snd kv)
  | None => if existsb (String.eqb key) Object_prototype then Inherited
            else Undefined
  end.

Definition truthy {A : Type} (s : slot A) : bool :=
  match s with
  | Undefined => false
  | _ => true
  end.

(* a numeric field read in arithmetic position: a missing field is
   [undefined], which arithmetic turns into NaN *)
Definition field {A : Type} (f : A -> R) (s : slot A) : num :=
  match s with
  | Own a => Num (f a)
  | _ => NaN
  end.

(* [s.f === z] for an integer-valued field *)
Definition field_is {A : Type} (f : A -> Z) (s : slot A) (z : Z) : bool :=
  match s with
  | Own a => Z.eqb (f a) z
  | _ => false
  end.

(* Array.prototype.sort with a comparison function.  The language requires
   the sort to be stable; [x] stays in front of [y] unless the comparison
   function returns a number above 0 (a NaN result counts as 0).  For a
   consistent comparison function the result of a stable sort is unique; it
   is computed here by stable insertion. *)
Fixpoint insert {A : Type} (cmp : A -> A -> num) (x : A) (l : list A) : list A :=
  match l with
  | [] => [x]
  | y :: l' => if gt (cmp x y) (Num 0) then y :: insert cmp x l' else x :: y :: l'
  end.

Definition Array_sort {A : Type} (cmp : A -> A -> num) (l : list A) : list A :=
  fold_right (insert cmp) [] l.

End JS.

Import JS.

Declare Scope js_scope.
Delimit Scope js_scope with js.
Infix "+" := add : js_scope.
Infix "-" := sub : js_scope.
Infix "*" := mul : js_scope.
Infix "/" := div : js_scope.
Notation "- x" := (neg x) : js_scope.

(** ** Registries *)

Record Material : Type := {
  base : R;
  timeK : R;
  phOpt : R;
  phSens : R;
  concDecay : R;
  synergy : R
}.

Record Pollutant : Type := {
  phDir : Z;
  optMul : R;
  concBase : R
}.

Definition MNCJG : Material :=
  {| base := 92; timeK := 0.18; phOpt := 6.0; phSens := 3.5; concDecay := 0.008; synergy := 5 |}.
Definition MNC : Material :=
  {| base := 78; timeK := 0.14; phOpt := 6.0; phSens := 4.0; concDecay := 0.012; synergy := 0 |}.
Definition NC : Material :=
  {| base := 55; timeK := 0.10; phOpt := 5.5; phSens := 5.0; concDecay := 0.018; synergy := 0 |}.
Definition NCJG : Material :=
  {| base := 72; timeK := 0.15; phOpt := 6.0; phSens := 3.8; concDecay := 0.010; synergy := 3 |}.
Definition MWM : Material :=
  {| base := 65; timeK := 0.12; phOpt := 5.5; phSens := 4.5; concDecay := 0.015; synergy := 0 |}.

Definition MODEL_PARAMS : list (string * Material) :=
  [ ("MNCJG", MNCJG); ("MNC", MNC); ("NC", NC); ("NCJG", NCJG); ("MWM", MWM) ].

Definition Cd_II : Pollutant := {| phDir := 1; optMul := 1.05; concBase := 5 |}.
Definition Pb_II : Pollutant := {| phDir := 1; optMul := 1.08; concBase := 5 |}.
Definition As_III : Pollutant := {| phDir := -1; optMul := 0.92; concBase := 5 |}.
Definition Nap : Pollutant := {| phDir := 0; optMul := 0.88; concBase := 50 |}.

Definition POLLUTANT_MOD : list (string * Pollutant) :=
  [ ("Cd(II)", Cd_II); ("Pb(II)", Pb_II); ("As(III)", As_III); ("Nap", Nap) ].

(** ** predictRemoval *)

Record Prediction : Type := {
  mean : num;
  std : num
}.

Definition predictRemoval (adsorbent pollutant : string)
  (pH concentration time : R) (competition : bool) : Prediction :=
  let m := get MODEL_PARAMS adsorbent in
  let p := get POLLUTANT_MOD pollutant in
  if negb (truthy m) || negb (truthy p) then {| mean := Num 0; std := Num 5 |}
  else
    let kinetic := (Num 1 - Math_exp (- field timeK m * Num time))%js in
    let phEffect :=
      if field_is phDir p 1 then
        (Num 1 / (Num 1 + Math_exp (Num (-1.5) * (Num pH - Num 4.5))))%js
      else if field_is phDir p (-1) then
        (Num 1 / (Num 1 + Math_exp (Num 1.2 * (Num pH - Num 6.5))))%js
      else
        (Num 0.85 + Num 0.15 * Math_exp (Num (-0.3) * Math_pow (Num pH - Num 6) 2))%js in
    let concEffect :=
      Math_exp (- field concDecay m * (Num concentration - field concBase p))%js in
    let compPenalty := if competition then Num 0.92 else Num 1.0 in
    let removal :=
      (field base m * kinetic * phEffect * concEffect * field optMul p * compPenalty)%js in
    let removal := Math_min (Num 100) (Math_max (Num 0) (removal + field synergy m)%js) in
    let std := (Num 2.0 + Num 3.0 * (Num 1 - kinetic)
                + Num 1.5 * Math_abs (Num pH - field phOpt m) / Num 3)%js in
    {| mean := (Math_round (removal * Num 100) / Num 100)%js;
       std := (Math_round (std * Num 100) / Num 100)%js |}.

(** The local variables of [predictRemoval] for a material [m] and a
    contaminant [p] of the registries, as functions on the reals. *)

Definition kinetic (m : Material) (time : R) : R :=
  1 - exp (- timeK m * time).

Definition phEffect (p : Pollutant) (pH : R) : R :=
  if (phDir p =? 1)%Z then 1 / (1 + exp (-1.5 * (pH - 4.5)))
  else if (phDir p =? -1)%Z then 1 / (1 + exp (1.2 * (pH - 6.5)))
  else 0.85 + 0.15 * exp (-0.3 * (pH - 6) ^ 2).

Definition concEffect (m : Material) (p : Pollutant) (concentration : R) : R :=
  exp (- concDecay m * (concentration - concBase p)).

Definition compPenalty (competition : bool) : R :=
  if competition then 0.92 else 1.0.

(* [removal + m.synergy], before it is clamped *)
Definition rawRemoval (m : Material) (p : Pollutant)
  (pH concentration time : R) (competition : bool) : R :=
  base m * kinetic m time * phEffect p pH * concEffect m p concentration
  * optMul p * compPenalty competition + synergy m.

Definition clamp (x : R) : R := Rmin 100 (Rmax 0 x).

(* [std], before it is rounded *)
Definition rawStd (m : Material) (pH time : R) : R :=
  2.0 + 3.0 * (1 - kinetic m time) + 1.5 * Rabs (pH - phOpt m) / 3.

(* [Math.round(x * 100) / 100] *)
Definition round2 (x : R) : R := round_half_up (x * 100) / 100.

(* an identifier that is neither a key of the registry nor absent from it:
   the read finds a member of Object.prototype *)
Definition inherited {A : Type} (table : list (string * A)) (key : string) : Prop :=
  get table key = Inherited.

(** ** bayesianOptimize *)

(* the object kept in [bestParams] *)
Module Params.
Record t : Type := {
  pH : R;
  time : R;
  concentration : R;
  predicted : num;
  std : num
}.
End Params.

(* an entry of [history] *)
Module Sample.
Record t : Type := {
  iteration : nat;
  pH : R;
  time : R;
  concentration : R;
  predicted : num;
  std : num;
  score : num
}.
End Sample.

Record SearchResult : Type := {
  best : option Params.t;
  history : list Sample.t
}.

(* the variables of the loop; [draws] counts the calls of Math.random *)
Record LoopState : Type := {
  bestParams : option Params.t;
  bestScore : bound;
  hist : list Sample.t;
  draws : nat
}.

Definition initial : LoopState :=
  {| bestParams := None; bestScore := NegInfinity; hist := []; draws := 0 |}.

Section Search.

(* Math.random: the k-th call of a run returns [random k] *)
Variable random : nat -> R.
Variables pollutant adsorbent : string.
Variable targetRemoval : R.
Variables phRange timeRange concRange : R * R.

Definition acquisition (pred : Prediction) : num :=
  let ei := (mean pred - Num targetRemoval + Num 0.5 * std pred)%js in
  if ge (mean pred) (Num targetRemoval) then (mean pred - Num 0.1 * std pred)%js
  else ei.

Definition loop_body (st : LoopState) (i : nat) : LoopState :=
  let pH := fst phRange + random (draws st) * (snd phRange - fst phRange) in
  let time := fst timeRange + random (draws st + 1) * (snd timeRange - fst timeRange) in
  let conc := fst concRange + random (draws st + 2) * (snd concRange - fst concRange) in
  let pred := predictRemoval adsorbent pollutant pH conc time false in
  let score := acquisition pred in
  let hist' :=
    (hist st ++
     [ {| Sample.iteration := i + 1; Sample.pH := toFixedR 2 pH;
          Sample.time := toFixedR 1 time;
          Sample.concentration := toFixedR 1 conc; Sample.predicted := mean pred;
          Sample.std := std pred; Sample.score := toFixed 2 score |} ])%list in
  if above score (bestScore st) then
    {| bestParams :=
         Some {| Params.pH := toFixedR 2 pH; Params.time := toFixedR 1 time;
                 Params.concentration := toFixedR 1 conc;
                 Params.predicted := mean pred; Params.std := std pred |};
       bestScore := as_bound score; hist := hist'; draws := draws st + 3 |}
  else
    {| bestParams := bestParams st; bestScore := bestScore st;
       hist := hist'; draws := draws st + 3 |}.

(* the sample of iteration [i] (counted from 0), which reads the draws
   [3 i], [3 i + 1] and [3 i + 2] *)
Definition trial_pH (i : nat) : R :=
  fst phRange + random (3 * i)%nat * (snd phRange - fst phRange).

Definition trial_time (i : nat) : R :=
  fst timeRange + random (3 * i + 1)%nat * (snd timeRange - fst timeRange).

Definition trial_conc (i : nat) : R :=
  fst concRange + random (3 * i + 2)%nat * (snd concRange - fst concRange).

Definition trial_pred (i : nat) : Prediction :=
  predictRemoval adsorbent pollutant (trial_pH i) (trial_conc i) (trial_time i) false.

Definition trial_score (i : nat) : num := acquisition (trial_pred i).

Definition trial_params (i : nat) : Params.t :=
  {| Params.pH := toFixedR 2 (trial_pH i); Params.time := toFixedR 1 (trial_time i);
     Params.concentration := toFixedR 1 (trial_conc i);
     Params.predicted := mean (trial_pred i); Params.std := std (trial_pred i) |}.

Definition trial_sample (i : nat) : Sample.t :=
  {| Sample.iteration := i + 1; Sample.pH := toFixedR 2 (trial_pH i);
     Sample.time := toFixedR 1 (trial_time i);
     Sample.concentration := toFixedR 1 (trial_conc i);
     Sample.predicted := mean (trial_pred i); Sample.std := std (trial_pred i);
     Sample.score := toFixed 2 (trial_score i) |}.

(* sample [j] is the first among the samples [0 .. n-1] whose score [s] is
   the largest of their numeric scores *)
Definition first_maximum (n j : nat) (s : R) : Prop :=
  (j < n)%nat /\ trial_score j = Num s /\
  (forall i si, (i < n)%nat -> trial_score i = Num si -> si <= s) /\
  (forall i si, (i < j)%nat -> trial_score i = Num si -> si < s).

Definition run (nIter : nat) : LoopState :=
  fold_left loop_body (seq 0 nIter) initial.

Definition bayesianOptimize (nIter : nat) : SearchResult :=
  let st := run nIter in
  {| best := bestParams st; history := hist st |}.

End Search.

(** ** computeSHAP *)

Record Feature : Type := {
  name : string;
  value : num;
  absValue : num
}.

Definition features (adsorbent pollutant : string) (pH concentration time : R)
  : list (string * num) :=
  let base := mean (predictRemoval adsorbent pollutant 6 10 15 false) in
  [ ("Contact Time", (mean (predictRemoval adsorbent pollutant 6 10 time false) - base)%js);
    ("Initial pH", (mean (predictRemoval adsorbent pollutant pH 10 15 false) - base)%js);
    ("Concentration", (mean (predictRemoval adsorbent pollutant 6 concentration 15 false) - base)%js);
    ("Adsorbent Type", (mean (predictRemoval adsorbent pollutant 6 10 15 false)
                        - mean (predictRemoval "NC" pollutant 6 10 15 false))%js);
    ("Pollutant Type", (mean (predictRemoval adsorbent pollutant 6 10 15 false)
                        - mean (predictRemoval adsorbent "Cd(II)" 6 10 15 false))%js);
    ("Competition", Num (-3.2)) ].

Definition computeSHAP (adsorbent pollutant : string) (pH concentration time : R)
  : list Feature :=
  Array_sort (fun a b => (absValue b - absValue a)%js)
    (map (fun f => {| name := fst f; value := toFixed 2 (snd f);
                      absValue := toFixed 2 (Math_abs (snd f)) |})
         (features adsorbent pollutant pH concentration time)).

(* order of the result of a stable descending sort: a larger key, or an
   equal key and an earlier place in the input *)
Definition precedes {A : Type} (key : A -> R) (earlier : A -> A -> Prop) (a b : A) : Prop :=
  key b < key a \/ (key a = key b /\ earlier a b).

(* the names of the factors in the order of the source *)
Definition declared : list string :=
  [ "Contact Time"; "Initial pH"; "Concentration"; "Adsorbent Type";
    "Pollutant Type"; "Competition" ].

Fixpoint index_of (s : string) (l : list string) : nat :=
  match l with
  | [] => 0
  | x :: l' => if String.eqb x s then 0 else S (index_of s l')
  end.

Definition rank (f : Feature) : nat := index_of (name f) declared.

(* [a] may stand in front of [b]: a larger absolute contribution, or an
   equal one and an earlier factor *)
Definition ranked_before (a b : Feature) : Prop :=
  match absValue a, absValue b with
  | Num x, Num y => y < x \/ (x = y /\ (rank a < rank b)%nat)
  | _, _ => False
  end.

Definition descending_stable (l : list Feature) : Prop :=
  StronglySorted ranked_before l.

(** ** A run of the search with two samples

    Draws for a search over pH in [6, 7] with contact time fixed to 0 and
    concentration fixed to 10: the first sample has pH 6.08, the second
    pH 6.02. *)

Definition two_draws (k : nat) : R :=
  match k with
  | 0%nat => 0.08
  | 3%nat => 0.02
  | _ => 0
  end.

(** ** Enclosures of [exp] at rational points

    Fixed-point interval arithmetic on integers, used to evaluate the model
    at concrete inputs: with [y = (n/d) / 2^k],
    [(1 + y)^(2^k) <= exp (n/d) <= (1 / (1 - y))^(2^k)],
    each squaring rounded outwards at scale [s]. *)

Definition sq_down (s a : Z) : Z := (a * a / s)%Z.
Definition sq_up (s a : Z) : Z := ((a * a + s - 1) / s)%Z.

Definition exp_lo (s : Z) (k : nat) (n d : Z) : Z :=
  Nat.iter k (sq_down s) (s * (d * 2 ^ Z.of_nat k + n) / (d * 2 ^ Z.of_nat k))%Z.

Definition exp_hi (s : Z) (k : nat) (n d : Z) : Z :=
  Nat.iter k (sq_up s)
    ((s * (d * 2 ^ Z.of_nat k) + (d * 2 ^ Z.of_nat k - n) - 1)
     / (d * 2 ^ Z.of_nat k - n))%Z.

(** ** Computations of the panels

    The data the panels derive from the functions above: the kinetic curve
    and the pH response of [PredictionPanel], the convergence line of
    [OptimizationPanel], the scatter of [ModelBenchmarkPanel], and the heat
    map and the cycling curves of [MaterialComparisonPanel]. *)

(* [for (let i = 0; i < n; i++) arr.push(f(i))] *)
Definition push_each {A : Type} (f : nat -> A) (n : nat) : list A :=
  fold_left (fun arr i => (arr ++ [f i])%list) (seq 0 n) [].

(* the same loop when every round calls Math.random [per] times: the round
   is given the number of calls made before it *)
Definition push_drawing {A : Type} (per : nat) (f : nat -> nat -> A) (n : nat) : list A :=
  fst (fold_left (fun st i => ((fst st ++ [f i (snd st)])%list, (snd st + per)%nat))
         (seq 0 n) ([], 0%nat)).

(* [for (let p = p0; p <= hi; p += step) st = body(st, p)]; the loop gives
   up after [fuel] tests of its condition *)
Fixpoint for_upto {St : Type} (fuel : nat) (hi step : R) (body : St -> R -> St)
  (p : R) (st : St) : option St :=
  match fuel with
  | O => None
  | S fuel' =>
      if Rle_dec p hi then for_upto fuel' hi step body (p + step) (body st p)
      else Some st
  end.

(* [arr.map((x, i) => f(x, i))], counting from [i] *)
Fixpoint mapi_from {A B : Type} (f : A -> nat -> B) (i : nat) (l : list A) : list B :=
  match l with
  | [] => []
  | x :: l' => f x i :: mapi_from f (S i) l'
  end.

(* the result of [Math.max(...l)]: -Infinity for no argument, NaN as soon
   as one argument is NaN *)
Inductive extnum : Type :=
| MinusInfinity
| Ext (x : num).

Definition Math_max_of (l : list num) : extnum :=
  fold_left (fun acc x => match acc with
                          | MinusInfinity => Ext x
                          | Ext a => Ext (Math_max a x)
                          end) l MinusInfinity.

(* [x || 0] for [x] a number or [undefined]: NaN and 0 are falsy *)
Definition or_zero (x : option num) : num :=
  match x with
  | Some (Num a) => if Req_dec_T a 0 then Num 0 else Num a
  | _ => Num 0
  end.

(* [Math.round(x)] as an integer *)
Definition Math_round_Z (x : R) : Z := Zfloor (x + 1 / 2).

(* [n.toString(16)] for an integer [z] *)
Definition hex_digit (n : nat) : ascii :=
  nth n [ "0"; "1"; "2"; "3"; "4"; "5"; "6"; "7"; "8"; "9";
          "a"; "b"; "c"; "d"; "e"; "f" ]%char "0"%char.

Fixpoint hex_digits (fuel n : nat) (acc : string) : string :=
  match fuel with
  | O => acc
  | S fuel' =>
      let acc' := String (hex_digit (n mod 16)) acc in
      if (n / 16 =? 0)%nat then acc' else hex_digits fuel' (n / 16) acc'
  end.

Definition toString16_Z (z : Z) : string :=
  if (z <? 0)%Z then "-" ++ hex_digits (S (Z.abs_nat z)) (Z.abs_nat z) ""
  else hex_digits (S (Z.abs_nat z)) (Z.abs_nat z) "".

(* [Math.round(x).toString(16)] *)
Definition round_toString16 (x : num) : string :=
  match x with
  | Num a => toString16_Z (Math_round_Z a)
  | NaN => "NaN"
  end.

Definition pollutants : list string := [ "Cd(II)"; "Pb(II)"; "As(III)"; "Nap" ].
Definition adsorbents : list string := [ "MNCJG"; "MNC"; "NC"; "NCJG"; "MWM" ].

Definition COLORS_primary : string := "#06d6a0".
Definition COLORS_secondary : string := "#118ab2".
Definition COLORS_accent : string := "#ef476f".
Definition COLORS_warning : string := "#ffd166".

(** *** PredictionPanel *)

Module KineticPoint.
Record t : Type := {
  time : R;
  removal : num;
  upper : num;
  lower : num
}.
End KineticPoint.

(* [kineticData]: the loop runs [t] over 0, 1, ..., 30 *)
Definition kineticData (ads pol : string) (pH conc : R) (comp : bool)
  : list KineticPoint.t :=
  push_each (fun t =>
    let r := predictRemoval ads pol pH conc (INR t) comp in
    {| KineticPoint.time := INR t;
       KineticPoint.removal := mean r;
       KineticPoint.upper := Math_min (Num 100) (mean r + Num 1.96 * std r)%js;
       KineticPoint.lower := Math_max (Num 0) (mean r - Num 1.96 * std r)%js |}) 31.

(* a row of [phData]: the key pH, then one key per pollutant in the order of
   the [forEach] *)
Module PhRow.
Record t : Type := {
  pH : R;
  columns : list (string * num)
}.
End PhRow.

Definition phRow (ads : string) (conc time p : R) : PhRow.t :=
  {| PhRow.pH := p;
     PhRow.columns :=
       fold_left (fun row pl =>
                    (row ++ [(pl, mean (predictRemoval ads pl p conc time false))])%list)
         pollutants [] |}.

Definition phData (fuel : nat) (ads : string) (conc time : R) : option (list PhRow.t) :=
  for_upto fuel 8 0.5 (fun pts p => (pts ++ [phRow ads conc time p])%list) 2 [].

(* the pH values 2, 2.5, ..., 8 *)
Definition ph_grid : list R := map (fun k => 2 + INR k * 0.5) (seq 0 13).


(* the value a row holds under a key *)
Definition column (key : string) (row : PhRow.t) : option num :=
  option_map snd (find (fun kv => String.eqb (fst kv) key) (PhRow.columns row)).

(* the value of [r1] under a key is a number at most that of [r2] *)
Definition column_le (key : string) (r1 r2 : PhRow.t) : Prop :=
  match column key r1, column key r2 with
  | Some x, Some y => num_le x y
  | _, _ => False
  end.

(** *** OptimizationPanel *)

Module ConvergencePoint.
Record t : Type := {
  entry : Sample.t;
  bestSoFar : extnum
}.
End ConvergencePoint.

(* the data of the convergence chart: every entry of the history with the
   largest [predicted] among the entries up to it *)
Definition convergence (history : list Sample.t) : list ConvergencePoint.t :=
  mapi_from (fun h i =>
    {| ConvergencePoint.entry := h;
       ConvergencePoint.bestSoFar :=
         Math_max_of (map Sample.predicted (firstn (i + 1) history)) |}) 0 history.

(** *** ModelBenchmarkPanel *)

Module ScatterPoint.
Record t : Type := {
  actual : R;
  predicted : R
}.
End ScatterPoint.

Definition scatterData (random : nat -> R) : list ScatterPoint.t :=
  push_drawing 2 (fun _ calls =>
    let actual := 10 + random calls * 85 in
    let noise := (random (calls + 1)%nat - 0.5) * 8 in
    {| ScatterPoint.actual := toFixedR 1 actual;
       ScatterPoint.predicted := toFixedR 1 (actual + noise) |}) 60.

(** *** MaterialComparisonPanel *)

Module HeatCell.
Record t : Type := {
  adsorbent : string;
  pollutant : string;
  removal : num
}.
End HeatCell.

Definition heatmapData : list HeatCell.t :=
  flat_map (fun a =>
    map (fun p =>
      {| HeatCell.adsorbent := a; HeatCell.pollutant := p;
         HeatCell.removal :=
           mean (predictRemoval a p 6 (if String.eqb p "Nap" then 50 else 5) 30 false) |})
      pollutants) adsorbents.

(* [heatmapData.find(d => d.adsorbent === a && d.pollutant === p)?.removal || 0] *)
Definition heat_value (a p : string) : num :=
  or_zero (option_map HeatCell.removal
             (find (fun d => String.eqb (HeatCell.adsorbent d) a
                             && String.eqb (HeatCell.pollutant d) p) heatmapData)).

(* the background of a cell: a colour of the theme followed by an opacity in
   hexadecimal *)
Definition heat_bg (val : num) : string :=
  let intensity := (val / Num 100)%js in
  if gt val (Num 90) then
    COLORS_primary ++ round_toString16 (intensity * Num 60 + Num 20)%js
  else if gt val (Num 70) then
    COLORS_secondary ++ round_toString16 (intensity * Num 50 + Num 20)%js
  else if gt val (Num 50) then
    COLORS_warning ++ round_toString16 (intensity * Num 40 + Num 20)%js
  else
    COLORS_accent ++ round_toString16 (intensity * Num 30 + Num 20)%js.

(* a row of [cycleData]; a value is kept as the number its [toFixed(1)]
   string denotes *)
Module CycleRow.
Record t : Type := {
  cycle : nat;
  Cd_II : R;
  Pb_II : R;
  As_III : R;
  Nap : R
}.
End CycleRow.

Definition cycleData (random : nat -> R) : list CycleRow.t :=
  push_drawing 4 (fun i calls =>
    {| CycleRow.cycle := i + 1;
       CycleRow.Cd_II :=
         toFixedR 1 (Rmax 75 (98 - INR i * 1.8 + (random calls - 0.5) * 2));
       CycleRow.Pb_II :=
         toFixedR 1 (Rmax 78 (99 - INR i * 1.5 + (random (calls + 1)%nat - 0.5) * 2));
       CycleRow.As_III :=
         toFixedR 1 (Rmax 60 (90 - INR i * 2.5 + (random (calls + 2)%nat - 0.5) * 2));
       CycleRow.Nap :=
         toFixedR 1 (Rmax 55 (85 - INR i * 2.0 + (random (calls + 3)%nat - 0.5) * 3)) |})
    10.

(* every call of Math.random returns a number in [0, 1) *)
Definition unit_draws (random : nat -> R) : Prop :=
  forall k, 0 <= random k < 1.

(** ** Numbers with overflow

    A second embedding of [predictRemoval], over numbers that include the
    special values Infinity, -Infinity and NaN of the language.  It is used
    to delimit the inputs on which the arithmetic of the source stays
    finite.  [Math.exp] returns Infinity above its overflow threshold, and
    the operations treat the special values as the language does:
    [0 * Infinity], [Infinity - Infinity] and every operation on NaN give
    NaN.  A finite result is the exact real: the rounding and the underflow
    of binary64 are not modelled, nor the overflow of a sum or a product of
    finite numbers. *)

Module Overflow.

Inductive num : Type :=
| Fin (r : R)
| PInf
| NInf
| Nan.

Definition neg (x : num) : num :=
  match x with
  | Fin a => Fin (- a)
  | PInf => NInf
  | NInf => PInf
  | Nan => Nan
  end.

Definition add (x y : num) : num :=
  match x, y with
  | Nan, _ | _, Nan => Nan
  | Fin a, Fin b => Fin (a + b)
  | PInf, NInf | NInf, PInf => Nan
  | PInf, _ | _, PInf => PInf
  | NInf, _ | _, NInf => NInf
  end.

Definition sub (x y : num) : num := add x (neg y).

(* an infinity times a finite number: the sign of the product, NaN for 0 *)
Definition mul (x y : num) : num :=
  match x, y with
  | Nan, _ | _, Nan => Nan
  | Fin a, Fin b => Fin (a * b)
  | Fin a, PInf | PInf, Fin a =>
      if Rlt_dec 0 a then PInf else if Rlt_dec a 0 then NInf else Nan
  | Fin a, NInf | NInf, Fin a =>
      if Rlt_dec 0 a then NInf else if Rlt_dec a 0 then PInf else Nan
  | PInf, PInf | NInf, NInf => PInf
  | PInf, NInf | NInf, PInf => NInf
  end.

(* every finite divisor in the source is a non-zero real (100, 3, or a
   number that is at least 1) *)
Definition div (x y : num) : num :=
  match x, y with
  | Nan, _ | _, Nan => Nan
  | Fin a, Fin b => Fin (a / b)
  | Fin _, PInf | Fin _, NInf => Fin 0
  | PInf, Fin b => if Rlt_dec b 0 then NInf else PInf
  | NInf, Fin b => if Rlt_dec b 0 then PInf else NInf
  | _, _ => Nan
  end.

(* the largest argument at which Math.exp is finite *)
Definition exp_max : R := 709.782712893384.

Definition Math_exp (x : num) : num :=
  match x with
  | Fin a => if Rlt_dec exp_max a then PInf else Fin (exp a)
  | PInf => PInf
  | NInf => Fin 0
  | Nan => Nan
  end.

Definition Math_abs (x : num) : num :=
  match x with
  | Fin a => Fin (Rabs a)
  | PInf | NInf => PInf
  | Nan => Nan
  end.

Definition Math_min (x y : num) : num :=
  match x, y with
  | Nan, _ | _, Nan => Nan
  | NInf, _ | _, NInf => NInf
  | PInf, z | z, PInf => z
  | Fin a, Fin b => Fin (Rmin a b)
  end.

Definition Math_max (x y : num) : num :=
  match x, y with
  | Nan, _ | _, Nan => Nan
  | PInf, _ | _, PInf => PInf
  | NInf, z | z, NInf => z
  | Fin a, Fin b => Fin (Rmax a b)
  end.

(* Math.pow with an exponent that is a natural number; [Math.pow(x, 0)] is 1
   for every [x] *)
Definition Math_pow (x : num) (n : nat) : num :=
  match n, x with
  | O, _ => Fin 1
  | _, Fin a => Fin (a ^ n)
  | _, PInf => PInf
  | _, NInf => if Nat.even n then PInf else NInf
  | _, Nan => Nan
  end.

Definition Math_round (x : num) : num :=
  match x with
  | Fin a => Fin (round_half_up a)
  | _ => x
  end.

Definition num_le (x y : num) : Prop :=
  match x, y with
  | Nan, _ | _, Nan => False
  | NInf, _ | _, PInf => True
  | Fin a, Fin b => a <= b
  | _, _ => False
  end.

Definition within (lo hi : R) (x : num) : Prop :=
  match x with
  | Fin a => lo <= a <= hi
  | _ => False
  end.

Definition is_positive (x : num) : Prop :=
  match x with
  | Fin a => 0 < a
  | PInf => True
  | _ => False
  end.

(* a numeric field read in arithmetic position *)
Definition field {A : Type} (f : A -> R) (s : slot A) : num :=
  match s with
  | Own a => Fin (f a)
  | _ => Nan
  end.

Declare Scope overflow_scope.
Delimit Scope overflow_scope with ov.
#[local] Infix "+" := add : overflow_scope.
#[local] Infix "-" := sub : overflow_scope.
#[local] Infix "*" := mul : overflow_scope.
#[local] Infix "/" := div : overflow_scope.
#[local] Notation "- x" := (neg x) : overflow_scope.

Record Prediction : Type := {
  mean : num;
  std : num
}.

(* [1 - Math.exp(-m.timeK * time)] *)
Definition kinetic (m : slot Material) (time : R) : num :=
  (Fin 1 - Math_exp (- field timeK m * Fin time))%ov.

(* the value assigned to [phEffect] by the branch of [p.phDir] *)
Definition phEffect (p : slot Pollutant) (pH : R) : num :=
  if field_is phDir p 1 then
    (Fin 1 / (Fin 1 + Math_exp (Fin (-1.5) * (Fin pH - Fin 4.5))))%ov
  else if field_is phDir p (-1) then
    (Fin 1 / (Fin 1 + Math_exp (Fin 1.2 * (Fin pH - Fin 6.5))))%ov
  else
    (Fin 0.85 + Fin 0.15 * Math_exp (Fin (-0.3) * Math_pow (Fin pH - Fin 6) 2))%ov.

(* [Math.exp(-m.concDecay * (concentration - p.concBase))] *)
Definition concEffect (m : slot Material) (p : slot Pollutant) (concentration : R) : num :=
  Math_exp (- field concDecay m * (Fin concentration - field concBase p))%ov.

Definition predictRemoval (adsorbent pollutant : string)
  (pH concentration time : R) (competition : bool) : Prediction :=
  let m := get MODEL_PARAMS adsorbent in
  let p := get POLLUTANT_MOD pollutant in
  if negb (truthy m) || negb (truthy p) then {| mean := Fin 0; std := Fin 5 |}
  else
    let kinetic := kinetic m time in
    let phEffect := phEffect p pH in
    let concEffect := concEffect m p concentration in
    let compPenalty := if competition then Fin 0.92 else Fin 1.0 in
    let removal :=
      (field base m * kinetic * phEffect * concEffect * field optMul p * compPenalty)%ov in
    let removal := Math_min (Fin 100) (Math_max (Fin 0) (removal + field synergy m)%ov) in
    let std := (Fin 2.0 + Fin 3.0 * (Fin 1 - kinetic)
                + Fin 1.5 * Math_abs (Fin pH - field phOpt m) / Fin 3)%ov in
    {| mean := (Math_round (removal * Fin 100) / Fin 100)%ov;
       std := (Math_round (std * Fin 100) / Fin 100)%ov |}.

(* a number of the exact embedding, as a number of this one *)
Definition inject (x : JS.num) : num :=
  match x with
  | Num r => Fin r
  | NaN => Nan
  end.

End Overflow.

(* the physical domain of the inputs: a pH on the pH scale, a concentration
   and a contact time that are not negative *)
Definition physical (pH concentration time : R) : Prop :=
  0 <= pH <= 14 /\ 0 <= concentration /\ 0 <= time.

(* a range [lo, hi] of the search whose bounds are in order and not negative *)
Definition proper_range (r : R * R) : Prop := 0 <= fst r <= snd r.

(** * Proofs *)

(** ** Soundness of the enclosures of [exp] *)

Section Enclosure.

Variable s : Z.
Hypothesis s_pos : (0 < s)%Z.

Lemma IZR_scale_pos : 0 < IZR s.
Proof. now apply IZR_lt. Qed.

Lemma exp_double (y : R) : exp (2 * y) = exp y * exp y.
Proof. rewrite <- exp_plus. f_equal. ring. Qed.

Lemma sq_down_sound (a : Z) (y : R) :
  (0 <= a)%Z -> IZR a / IZR s <= exp y ->
  (0 <= sq_down s a)%Z /\ IZR (sq_down s a) / IZR s <= exp (2 * y).
Proof.
  intros Ha Hy. pose proof IZR_scale_pos as HS. unfold sq_down. split.
  - apply Z.div_pos; nia.
  - pose proof (Z.mul_div_le (a * a) s s_pos) as Hq.
    apply IZR_le in Hq. rewrite !mult_IZR in Hq.
    apply IZR_le in Ha.
    rewrite exp_double.
    set (q := IZR (a * a / s)) in *. set (ra := IZR a) in *. set (rs := IZR s) in *.
    assert (Hra : 0 <= ra / rs)
      by (apply Rmult_le_pos; [lra | left; now apply Rinv_0_lt_compat]).
    assert (Hsq : ra / rs * (ra / rs) <= exp y * exp y) by nra.
    assert (Hq' : q / rs <= ra / rs * (ra / rs)).
    { apply Rmult_le_reg_r with (rs * rs); [nra|]. field_simplify; [|lra|lra]. nra. }
    lra.
Qed.

Lemma sq_up_sound (b : Z) (y : R) :
  exp y <= IZR b / IZR s -> exp (2 * y) <= IZR (sq_up s b) / IZR s.
Proof.
  intros Hy. pose proof IZR_scale_pos as HS. unfold sq_up.
  assert (Hq : (b * b <= s * ((b * b + s - 1) / s))%Z).
  { pose proof (Z.div_mod (b * b + s - 1) s ltac:(lia)) as E.
    pose proof (Z.mod_pos_bound (b * b + s - 1) s s_pos). lia. }
  apply IZR_le in Hq. rewrite !mult_IZR in Hq.
  rewrite exp_double. pose proof (exp_pos y) as Hp.
  set (q := IZR ((b * b + s - 1) / s)) in *. set (rb := IZR b) in *. set (rs := IZR s) in *.
  assert (Hsq : exp y * exp y <= rb / rs * (rb / rs)) by nra.
  assert (Hq' : rb / rs * (rb / rs) <= q / rs).
  { apply Rmult_le_reg_r with (rs * rs); [nra|]. field_simplify; [|lra|lra]. nra. }
  lra.
Qed.

Lemma iter_down_sound (k : nat) : forall (a : Z) (y : R),
  (0 <= a)%Z -> IZR a / IZR s <= exp y ->
  (0 <= Nat.iter k (sq_down s) a)%Z /\
  IZR (Nat.iter k (sq_down s) a) / IZR s <= exp (2 ^ k * y).
Proof.
  induction k as [|k IH]; intros a y Ha Hy; simpl.
  - rewrite Rmult_1_l. auto.
  - destruct (IH a y Ha Hy) as [H0 H1].
    replace (2 * 2 ^ k * y) with (2 * (2 ^ k * y)) by ring.
    now apply sq_down_sound.
Qed.

Lemma iter_up_sound (k : nat) : forall (b : Z) (y : R),
  exp y <= IZR b / IZR s ->
  exp (2 ^ k * y) <= IZR (Nat.iter k (sq_up s) b) / IZR s.
Proof.
  induction k as [|k IH]; intros b y Hy; simpl.
  - now rewrite Rmult_1_l.
  - replace (2 * 2 ^ k * y) with (2 * (2 ^ k * y)) by ring.
    apply sq_up_sound. now apply IH.
Qed.

Lemma exp_lo_sound (k : nat) (n d : Z) :
  (0 < d)%Z -> (0 <= d * 2 ^ Z.of_nat k + n)%Z ->
  IZR (exp_lo s k n d) / IZR s <= exp (IZR n / IZR d).
Proof.
  intros Hd Hn. pose proof IZR_scale_pos as HS. unfold exp_lo.
  set (D := (d * 2 ^ Z.of_nat k)%Z) in *.
  assert (HD : (0 < D)%Z)
    by (subst D; apply Z.mul_pos_pos; [lia | apply Z.pow_pos_nonneg; lia]).
  assert (HDr : IZR D = IZR d * 2 ^ k) by (subst D; now rewrite mult_IZR, <- pow_IZR).
  assert (HDp : 0 < IZR D) by now apply IZR_lt.
  assert (Hdp : 0 < IZR d) by now apply IZR_lt.
  assert (Hk : 0 < 2 ^ k) by (apply pow_lt; lra).
  set (y := IZR n / IZR D).
  destruct (iter_down_sound k (s * (D + n) / D) y) as [_ H].
  - apply Z.div_pos; nia.
  - pose proof (Z.mul_div_le (s * (D + n)) D HD) as Hq.
    apply IZR_le in Hq. rewrite !mult_IZR, plus_IZR in Hq.
    apply Rle_trans with (1 + y); [|apply exp_ineq1_le].
    set (q := IZR (s * (D + n) / D)) in *.
    unfold y. apply Rmult_le_reg_r with (IZR s * IZR D); [nra|].
    field_simplify; [|lra|lra]. nra.
  - replace (2 ^ k * y) with (IZR n / IZR d) in H; [exact H|].
    unfold y. rewrite HDr. field. split; lra.
Qed.

Lemma exp_hi_sound (k : nat) (n d : Z) :
  (0 < d)%Z -> (0 < d * 2 ^ Z.of_nat k - n)%Z ->
  exp (IZR n / IZR d) <= IZR (exp_hi s k n d) / IZR s.
Proof.
  intros Hd Hn. pose proof IZR_scale_pos as HS. unfold exp_hi.
  set (D := (d * 2 ^ Z.of_nat k)%Z) in *.
  assert (HD : (0 < D)%Z)
    by (subst D; apply Z.mul_pos_pos; [lia | apply Z.pow_pos_nonneg; lia]).
  assert (HDr : IZR D = IZR d * 2 ^ k) by (subst D; now rewrite mult_IZR, <- pow_IZR).
  assert (HDp : 0 < IZR D) by now apply IZR_lt.
  assert (Hdp : 0 < IZR d) by now apply IZR_lt.
  assert (Hk : 0 < 2 ^ k) by (apply pow_lt; lra).
  assert (HE : 0 < IZR D - IZR n) by (rewrite <- minus_IZR; now apply IZR_lt).
  set (y := IZR n / IZR D).
  replace (IZR n / IZR d) with (2 ^ k * y) by (unfold y; rewrite HDr; field; split; lra).
  apply iter_up_sound.
  assert (Hq : (s * D <= (D - n) * ((s * D + (D - n) - 1) / (D - n)))%Z).
  { pose proof (Z.div_mod (s * D + (D - n) - 1) (D - n) ltac:(lia)) as E.
    pose proof (Z.mod_pos_bound (s * D + (D - n) - 1) (D - n) Hn). lia. }
  apply IZR_le in Hq. rewrite !mult_IZR, minus_IZR in Hq.
  set (q := IZR ((s * D + (D - n) - 1) / (D - n))) in *.
  assert (Hy1 : 0 < 1 - y).
  { unfold y. apply Rmult_lt_reg_r with (IZR D); [lra|]. field_simplify; lra. }
  assert (He : exp y <= / (1 - y)).
  { pose proof (exp_ineq1_le (- y)) as H1. rewrite exp_Ropp in H1.
    pose proof (exp_pos y) as Hp.
    rewrite <- (Rinv_inv (exp y)). apply Rinv_le_contravar; lra. }
  apply Rle_trans with (/ (1 - y)); [exact He|].
  apply Rmult_le_reg_r with ((1 - y) * IZR s); [nra|].
  replace (/ (1 - y) * ((1 - y) * IZR s)) with (IZR s) by (field; lra).
  replace (q / IZR s * ((1 - y) * IZR s)) with (q * (1 - y)) by (field; lra).
  unfold y. apply Rmult_le_reg_r with (IZR D); [lra|].
  replace (q * (1 - IZR n / IZR D) * IZR D) with ((IZR D - IZR n) * q) by (field; lra).
  lra.
Qed.

End Enclosure.

Lemma exp_enclosure (n d : Z) :
  (0 < d)%Z -> (0 <= d * 2 ^ 40 + n)%Z -> (0 < d * 2 ^ 40 - n)%Z ->
  IZR (exp_lo (10 ^ 30) 40 n d) / IZR (10 ^ 30) <= exp (IZR n / IZR d)
  <= IZR (exp_hi (10 ^ 30) 40 n d) / IZR (10 ^ 30).
Proof.
  intros Hd H1 H2. split.
  - apply exp_lo_sound; [reflexivity | assumption | exact H1].
  - apply exp_hi_sound; [reflexivity | assumption | exact H2].
Qed.

(* [enclose n d as H]: H bounds [exp (n / d)] between two fractions of 10^30 *)
Tactic Notation "enclose" constr(n) constr(d) "as" ident(H) :=
  pose proof (exp_enclosure n d eq_refl ltac:(vm_compute; discriminate) eq_refl) as H;
  let lo := fresh "lo" in
  let hi := fresh "hi" in
  set (lo := exp_lo _ _ _ _) in H; set (hi := exp_hi _ _ _ _) in H;
  vm_compute in lo; vm_compute in hi; subst lo hi;
  change (IZR (10 ^ 30)) with (IZR 1000000000000000000000000000000) in H.

Lemma product_enclosure (a a1 a2 b b1 b2 : R) :
  0 <= a1 <= a -> a <= a2 -> 0 <= b1 <= b -> b <= b2 ->
  a1 * b1 <= a * b <= a2 * b2.
Proof. intros. split; apply Rmult_le_compat; lra. Qed.

Lemma logistic_enclosure (e lo hi : R) :
  0 < e -> lo * (1 + e) <= 1 -> 1 <= hi * (1 + e) -> lo <= 1 / (1 + e) <= hi.
Proof.
  intros He Hlo Hhi.
  split; apply Rmult_le_reg_r with (1 + e); try lra;
    unfold Rdiv; rewrite Rmult_assoc, Rinv_l by lra; lra.
Qed.

(** ** Rounding *)

Lemma round_half_up_le (x y : R) : x <= y -> round_half_up x <= round_half_up y.
Proof. intros H. unfold round_half_up. apply IZR_le, Zfloor_le. lra. Qed.

Lemma round_half_up_lower (z : Z) (x : R) : IZR z <= x -> IZR z <= round_half_up x.
Proof. intros H. unfold round_half_up. apply IZR_le, Zfloor_lub. lra. Qed.

Lemma round_half_up_upper (z : Z) (x : R) : x <= IZR z -> round_half_up x <= IZR z.
Proof.
  intros H. unfold round_half_up. apply IZR_le.
  assert (Zfloor (x + 1 / 2) < z + 1)%Z; [|lia].
  apply lt_IZR. rewrite plus_IZR. pose proof (Zfloor_bound (x + 1 / 2)). lra.
Qed.

Lemma round_half_up_eq (z : Z) (x : R) :
  IZR z - 1 / 2 <= x < IZR z + 1 / 2 -> round_half_up x = IZR z.
Proof. intros H. unfold round_half_up. f_equal. apply Zfloor_eq. lra. Qed.

Lemma round2_le (x y : R) : x <= y -> round2 x <= round2 y.
Proof.
  intros H. unfold round2.
  assert (round_half_up (x * 100) <= round_half_up (y * 100))
    by (apply round_half_up_le; lra).
  lra.
Qed.

Lemma round2_eq (z : Z) (x : R) :
  IZR z - 1 / 2 <= x * 100 < IZR z + 1 / 2 -> round2 x = IZR z / 100.
Proof. intros H. unfold round2. now rewrite (round_half_up_eq z). Qed.

Lemma clamp_range (x : R) : 0 <= clamp x <= 100.
Proof.
  unfold clamp, Rmin, Rmax.
  destruct (Rle_dec 0 x); destruct (Rle_dec 100 _); lra.
Qed.

Lemma clamp_le (x y : R) : x <= y -> clamp x <= clamp y.
Proof. intros H. unfold clamp. now apply Rle_min_compat_l, Rle_max_compat_l. Qed.

Lemma clamp_id (x : R) : 0 <= x <= 100 -> clamp x = x.
Proof.
  intros H. unfold clamp. rewrite Rmax_right by lra. now rewrite Rmin_right by lra.
Qed.

Lemma pow10_pos (d : nat) : 0 < 10 ^ d.
Proof. apply pow_lt. lra. Qed.

Lemma toFixedR_nonneg (d : nat) (a : R) (z : Z) :
  0 <= a < 10 ^ 21 -> IZR z - 1 / 2 <= a * 10 ^ d < IZR z + 1 / 2 ->
  toFixedR d a = IZR z / 10 ^ d.
Proof.
  intros Ha Hz. unfold toFixedR.
  destruct (Rle_dec (10 ^ 21) (Rabs a)) as [Hb|_].
  - rewrite Rabs_pos_eq in Hb by lra. lra.
  - destruct (Rle_dec 0 a) as [_|Hn]; [|lra].
    do 2 f_equal. apply Zfloor_eq. lra.
Qed.

Lemma toFixedR_neg (d : nat) (a : R) (z : Z) :
  - 10 ^ 21 < a < 0 -> IZR z - 1 / 2 <= - a * 10 ^ d < IZR z + 1 / 2 ->
  toFixedR d a = - (IZR z / 10 ^ d).
Proof.
  intros Ha Hz. unfold toFixedR.
  destruct (Rle_dec (10 ^ 21) (Rabs a)) as [Hb|_].
  - rewrite Rabs_left in Hb by lra. lra.
  - destruct (Rle_dec 0 a) as [Hn|_]; [lra|].
    do 3 f_equal. apply Zfloor_eq. lra.
Qed.

(* the rounded magnitude of a number below 10^21 is at most 10^21 *)
Lemma rounded_magnitude_bound (d : nat) (a : R) :
  0 <= a < 10 ^ 21 -> 0 <= IZR (Zfloor (a * 10 ^ d + 1 / 2)) / 10 ^ d <= 10 ^ 21.
Proof.
  intros Ha. pose proof (pow10_pos d) as Hd.
  assert (E : IZR (10 ^ Z.of_nat (21 + d)) = 10 ^ 21 * 10 ^ d)
    by (now rewrite <- pow_IZR, pow_add).
  assert (H0 : (0 <= Zfloor (a * 10 ^ d + 1 / 2))%Z).
  { apply Zfloor_lub. simpl. nra. }
  assert (H1 : (Zfloor (a * 10 ^ d + 1 / 2) < 10 ^ Z.of_nat (21 + d) + 1)%Z).
  { apply lt_IZR. rewrite plus_IZR, E.
    pose proof (Zfloor_bound (a * 10 ^ d + 1 / 2)). nra. }
  apply IZR_le in H0.
  assert (H2 : IZR (Zfloor (a * 10 ^ d + 1 / 2)) <= 10 ^ 21 * 10 ^ d).
  { rewrite <- E. apply IZR_le. lia. }
  split.
  - apply Rmult_le_pos; [assumption | left; now apply Rinv_0_lt_compat].
  - apply Rmult_le_reg_r with (10 ^ d); [assumption|].
    unfold Rdiv. rewrite Rmult_assoc, Rinv_l by lra. lra.
Qed.

Lemma toFixedR_le (d : nat) (x y : R) : x <= y -> toFixedR d x <= toFixedR d y.
Proof.
  intros H. pose proof (pow10_pos d) as Hd. pose proof (pow10_pos 21) as H21.
  unfold toFixedR.
  destruct (Rle_dec (10 ^ 21) (Rabs x)) as [Bx|Sx];
  destruct (Rle_dec (10 ^ 21) (Rabs y)) as [By|Sy];
  try destruct (Rle_dec 0 x) as [Px|Nx]; try destruct (Rle_dec 0 y) as [Py|Ny];
  try assumption;
  repeat match goal with
  | H : _ <= Rabs ?a, P : 0 <= ?a |- _ => rewrite (Rabs_pos_eq a P) in H
  | H : _ <= Rabs ?a, P : ~ 0 <= ?a |- _ => rewrite (Rabs_left a) in H by lra
  | H : ~ _ <= Rabs ?a, P : 0 <= ?a |- _ => rewrite (Rabs_pos_eq a P) in H
  | H : ~ _ <= Rabs ?a, P : ~ 0 <= ?a |- _ => rewrite (Rabs_left a) in H by lra
  end;
  try (pose proof (rounded_magnitude_bound d x ltac:(lra)));
  try (pose proof (rounded_magnitude_bound d y ltac:(lra)));
  try (pose proof (rounded_magnitude_bound d (- x) ltac:(lra)));
  try (pose proof (rounded_magnitude_bound d (- y) ltac:(lra)));
  try lra.
  - assert (IZR (Zfloor (x * 10 ^ d + 1 / 2)) <= IZR (Zfloor (y * 10 ^ d + 1 / 2))).
    { apply IZR_le, Zfloor_le. nra. }
    apply Rmult_le_compat_r; [left; now apply Rinv_0_lt_compat | assumption].
  - assert (IZR (Zfloor (- y * 10 ^ d + 1 / 2)) <= IZR (Zfloor (- x * 10 ^ d + 1 / 2))).
    { apply IZR_le, Zfloor_le. nra. }
    apply Ropp_le_contravar.
    apply Rmult_le_compat_r; [left; now apply Rinv_0_lt_compat | assumption].
Qed.

(** ** Registry reads *)

Lemma get_own_in {A : Type} (table : list (string * A)) (key : string) (a : A) :
  get table key = Own a -> In (key, a) table.
Proof.
  unfold get. destruct (find _ table) as [[k v]|] eqn:E.
  - intros [= <-]. apply find_some in E. destruct E as [Hin Hk].
    simpl in Hk. apply String.eqb_eq in Hk. now subst k.
  - destruct (existsb _ _); discriminate.
Qed.

Lemma get_undefined_not_key {A : Type} (table : list (string * A)) (key : string) :
  get table key = Undefined <->
  ~ In key (map fst table) /\ ~ In key Object_prototype.
Proof.
  unfold get. destruct (find _ table) as [[k v]|] eqn:E.
  - apply find_some in E. destruct E as [Hin Hk]. simpl in Hk.
    apply String.eqb_eq in Hk. subst k. split; [discriminate|].
    intros [Hn _]. exfalso. apply Hn. now apply (in_map fst) in Hin.
  - assert (Hn : ~ In key (map fst table)).
    { intros Hin. apply in_map_iff in Hin. destruct Hin as ([k v] & Hk & Hin).
      simpl in Hk. subst k. apply (find_none _ _ E) in Hin. simpl in Hin.
      now rewrite String.eqb_refl in Hin. }
    destruct (existsb _ Object_prototype) eqn:Ex.
    + split; [discriminate|]. intros [_ Hp]. exfalso. apply Hp.
      apply existsb_exists in Ex. destruct Ex as (x & Hx & Heq).
      apply String.eqb_eq in Heq. now subst x.
    + split; [|reflexivity]. intros _. split; [assumption|].
      intros Hin. assert (existsb (String.eqb key) Object_prototype = true).
      { apply existsb_exists. exists key. split; [assumption | apply String.eqb_refl]. }
      congruence.
Qed.

Lemma material_sound (key : string) (m : Material) :
  get MODEL_PARAMS key = Own m ->
  0 < base m /\ 0 < timeK m /\ 0 < concDecay m /\ 0 <= synergy m.
Proof.
  intros H. apply get_own_in in H. simpl in H.
  repeat (destruct H as [[= _ <-]|H]; [simpl; lra|]). contradiction.
Qed.

Lemma pollutant_sound (key : string) (p : Pollutant) :
  get POLLUTANT_MOD key = Own p -> 0 < optMul p.
Proof.
  intros H. apply get_own_in in H. simpl in H.
  repeat (destruct H as [[= _ <-]|H]; [simpl; lra|]). contradiction.
Qed.

(** ** predictRemoval by the kind of its two reads *)

Lemma predictRemoval_own (adsorbent pollutant : string) (m : Material) (p : Pollutant)
  (pH concentration time : R) (competition : bool) :
  get MODEL_PARAMS adsorbent = Own m -> get POLLUTANT_MOD pollutant = Own p ->
  predictRemoval adsorbent pollutant pH concentration time competition =
  {| mean := Num (round2 (clamp (rawRemoval m p pH concentration time competition)));
     std := Num (round2 (rawStd m pH time)) |}.
Proof.
  intros Hm Hp. unfold predictRemoval. rewrite Hm, Hp. simpl.
  unfold round2, clamp, rawRemoval, rawStd, kinetic, phEffect, concEffect, compPenalty.
  destruct (phDir p =? 1)%Z; [|destruct (phDir p =? -1)%Z]; destruct competition;
    reflexivity.
Qed.

Lemma predictRemoval_undefined_material (adsorbent pollutant : string)
  (pH concentration time : R) (competition : bool) :
  get MODEL_PARAMS adsorbent = Undefined ->
  predictRemoval adsorbent pollutant pH concentration time competition =
  {| mean := Num 0; std := Num 5 |}.
Proof. intros H. unfold predictRemoval. now rewrite H. Qed.

Lemma predictRemoval_undefined_pollutant (adsorbent pollutant : string)
  (pH concentration time : R) (competition : bool) :
  get POLLUTANT_MOD pollutant = Undefined ->
  predictRemoval adsorbent pollutant pH concentration time competition =
  {| mean := Num 0; std := Num 5 |}.
Proof.
  intros H. unfold predictRemoval. rewrite H. simpl. now rewrite orb_true_r.
Qed.

(** For every pH, concentration, contact time and competition flag, if the
    material identifier is neither a key of [MODEL_PARAMS] nor a member of
    Object.prototype, or the contaminant identifier is neither a key of
    [POLLUTANT_MOD] nor a member of Object.prototype, the result is exactly
    the fallback, mean 0 and std 5. *)
Theorem predictRemoval_fallback (adsorbent pollutant : string)
  (pH concentration time : R) (competition : bool) :
  (~ In adsorbent (map fst MODEL_PARAMS) /\ ~ In adsorbent Object_prototype) \/
  (~ In pollutant (map fst POLLUTANT_MOD) /\ ~ In pollutant Object_prototype) ->
  predictRemoval adsorbent pollutant pH concentration time competition =
  {| mean := Num 0; std := Num 5 |}.
Proof.
  intros [H|H]; apply get_undefined_not_key in H.
  - now apply predictRemoval_undefined_material.
  - now apply predictRemoval_undefined_pollutant.
Qed.

Lemma predictRemoval_fallback_witness :
  predictRemoval "MNCJG" "Hg(II)" 6 10 15 false = {| mean := Num 0; std := Num 5 |}.
Proof.
  apply predictRemoval_fallback. right. split; simpl; intuition discriminate.
Defined.

Lemma predictRemoval_inherited_material (adsorbent pollutant : string)
  (pH concentration time : R) (competition : bool) :
  inherited MODEL_PARAMS adsorbent -> get POLLUTANT_MOD pollutant <> Undefined ->
  predictRemoval adsorbent pollutant pH concentration time competition =
  {| mean := NaN; std := NaN |}.
Proof.
  unfold inherited. intros Hm Hp. unfold predictRemoval. rewrite Hm.
  destruct (get POLLUTANT_MOD pollutant) as [p| |]; [| |contradiction]; simpl.
  - destruct (phDir p =? 1)%Z; [|destruct (phDir p =? -1)%Z]; destruct competition;
      reflexivity.
  - destruct competition; reflexivity.
Qed.

Lemma predictRemoval_inherited_pollutant (adsorbent pollutant : string) (m : Material)
  (pH concentration time : R) (competition : bool) :
  get MODEL_PARAMS adsorbent = Own m -> inherited POLLUTANT_MOD pollutant ->
  predictRemoval adsorbent pollutant pH concentration time competition =
  {| mean := NaN; std := Num (round2 (rawStd m pH time)) |}.
Proof.
  unfold inherited. intros Hm Hp. unfold predictRemoval. rewrite Hm, Hp. simpl.
  destruct competition; reflexivity.
Qed.

(** ** The factors of the model *)

Lemma kinetic_0 (m : Material) : kinetic m 0 = 0.
Proof. unfold kinetic. rewrite Rmult_0_r, exp_0. lra. Qed.

Lemma kinetic_increasing (m : Material) (t1 t2 : R) :
  0 < timeK m -> t1 < t2 -> kinetic m t1 < kinetic m t2.
Proof.
  intros Hk Ht. unfold kinetic.
  assert (exp (- timeK m * t2) < exp (- timeK m * t1)); [|lra].
  apply exp_increasing. nra.
Qed.

Lemma kinetic_nonneg (m : Material) (t : R) :
  0 < timeK m -> 0 <= t -> 0 <= kinetic m t.
Proof.
  intros Hk [Ht | <-].
  - rewrite <- (kinetic_0 m). left. now apply kinetic_increasing.
  - rewrite kinetic_0. lra.
Qed.

Lemma kinetic_below_1 (m : Material) (t : R) : kinetic m t < 1.
Proof. unfold kinetic. pose proof (exp_pos (- timeK m * t)). lra. Qed.

Lemma logistic_pos (x : R) : 0 < 1 / (1 + exp x).
Proof. pose proof (exp_pos x). apply Rdiv_lt_0_compat; lra. Qed.

Lemma logistic_decreasing (x y : R) : x <= y -> 1 / (1 + exp y) <= 1 / (1 + exp x).
Proof.
  intros H. pose proof (exp_pos x). pose proof (exp_pos y).
  assert (exp x <= exp y).
  { destruct H as [H| ->]; [left; now apply exp_increasing | lra]. }
  unfold Rdiv. rewrite !Rmult_1_l. apply Rinv_le_contravar; lra.
Qed.

Lemma phEffect_pos (p : Pollutant) (pH : R) : 0 < phEffect p pH.
Proof.
  unfold phEffect.
  destruct (phDir p =? 1)%Z; [apply logistic_pos|].
  destruct (phDir p =? -1)%Z; [apply logistic_pos|].
  pose proof (exp_pos (-0.3 * (pH - 6) ^ 2)). lra.
Qed.

Lemma phEffect_high_increasing (p : Pollutant) (pH1 pH2 : R) :
  phDir p = 1%Z -> pH1 <= pH2 -> phEffect p pH1 <= phEffect p pH2.
Proof.
  intros Hd H. unfold phEffect. rewrite Hd. simpl.
  apply logistic_decreasing. lra.
Qed.

Lemma concEffect_pos (m : Material) (p : Pollutant) (c : R) : 0 < concEffect m p c.
Proof. apply exp_pos. Qed.

Lemma compPenalty_pos (competition : bool) : 0 < compPenalty competition.
Proof. unfold compPenalty. destruct competition; lra. Qed.

Lemma rawRemoval_time_le (m : Material) (p : Pollutant) (pH c t1 t2 : R) (comp : bool) :
  0 < base m -> 0 < optMul p -> kinetic m t1 <= kinetic m t2 ->
  rawRemoval m p pH c t1 comp <= rawRemoval m p pH c t2 comp.
Proof.
  intros Hb Ho Hk. unfold rawRemoval.
  pose proof (phEffect_pos p pH) as H1. pose proof (concEffect_pos m p c) as H2.
  pose proof (compPenalty_pos comp) as H3.
  set (f := phEffect p pH) in *. set (g := concEffect m p c) in *.
  set (h := compPenalty comp) in *.
  assert (0 < f * g * optMul p * h) by (repeat apply Rmult_lt_0_compat; assumption).
  assert (0 < base m * (f * g * optMul p * h)) by (apply Rmult_lt_0_compat; assumption).
  nra.
Qed.

Lemma rawRemoval_pH_le (m : Material) (p : Pollutant) (pH1 pH2 c t : R) (comp : bool) :
  0 < base m -> 0 < optMul p -> 0 <= kinetic m t -> phEffect p pH1 <= phEffect p pH2 ->
  rawRemoval m p pH1 c t comp <= rawRemoval m p pH2 c t comp.
Proof.
  intros Hb Ho Hk Hf. unfold rawRemoval.
  pose proof (concEffect_pos m p c) as H2. pose proof (compPenalty_pos comp) as H3.
  set (g := concEffect m p c) in *. set (h := compPenalty comp) in *.
  set (k := kinetic m t) in *.
  assert (0 <= base m * k) by (apply Rmult_le_pos; lra).
  assert (0 < g * optMul p * h) by (repeat apply Rmult_lt_0_compat; assumption).
  assert (base m * k * phEffect p pH1 <= base m * k * phEffect p pH2)
    by (apply Rmult_le_compat_l; assumption).
  replace (base m * k * phEffect p pH1 * g * optMul p * h)
    with (base m * k * phEffect p pH1 * (g * optMul p * h)) by ring.
  replace (base m * k * phEffect p pH2 * g * optMul p * h)
    with (base m * k * phEffect p pH2 * (g * optMul p * h)) by ring.
  apply Rplus_le_compat_r. apply Rmult_le_compat_r; lra.
Qed.

Lemma phEffect_low_decreasing (p : Pollutant) (pH1 pH2 : R) :
  phDir p = (-1)%Z -> pH1 <= pH2 -> phEffect p pH2 <= phEffect p pH1.
Proof.
  intros Hd H. unfold phEffect. rewrite Hd. simpl.
  apply logistic_decreasing. lra.
Qed.

(** ** Range of the result *)

Lemma round2_clamp_range (x : R) : 0 <= round2 (clamp x) <= 100.
Proof.
  pose proof (clamp_range x) as H. unfold round2.
  pose proof (round_half_up_lower 0 (clamp x * 100) ltac:(lra)).
  pose proof (round_half_up_upper 10000 (clamp x * 100) ltac:(lra)).
  lra.
Qed.

Lemma rawStd_above_2 (m : Material) (pH t : R) : 2 < rawStd m pH t.
Proof.
  unfold rawStd. pose proof (kinetic_below_1 m t).
  pose proof (Rabs_pos (pH - phOpt m)). lra.
Qed.

Lemma round2_std_range (m : Material) (pH t : R) : 2 <= round2 (rawStd m pH t).
Proof.
  pose proof (rawStd_above_2 m pH t). unfold round2.
  pose proof (round_half_up_lower 200 (rawStd m pH t * 100) ltac:(lra)). lra.
Qed.

(* both results are numbers unless an identifier is a member of
   Object.prototype *)
Lemma prediction_numeric (adsorbent pollutant : string) (pH c t : R) (comp : bool) :
  ~ inherited MODEL_PARAMS adsorbent -> ~ inherited POLLUTANT_MOD pollutant ->
  (exists a, mean (predictRemoval adsorbent pollutant pH c t comp) = Num a) /\
  (exists b, std (predictRemoval adsorbent pollutant pH c t comp) = Num b).
Proof.
  unfold inherited. intros Hm Hp.
  destruct (get MODEL_PARAMS adsorbent) as [m| |] eqn:Em; [| contradiction |].
  - destruct (get POLLUTANT_MOD pollutant) as [p| |] eqn:Ep; [| contradiction |].
    + rewrite (predictRemoval_own _ _ m p) by assumption.
      split; eexists; reflexivity.
    + rewrite predictRemoval_undefined_pollutant by assumption.
      split; eexists; reflexivity.
  - rewrite predictRemoval_undefined_material by assumption.
    split; eexists; reflexivity.
Qed.

(** C3.  ["constructor"] is not a key of [MODEL_PARAMS], yet
    [predictRemoval "constructor" "Cd(II)" 6 10 15 false] is not the fallback
    [{mean: 0, std: 5}]: the read [MODEL_PARAMS["constructor"]] finds the
    member inherited from Object.prototype, the guard [!m || !p] lets it
    pass, and both results are NaN. *)
Theorem fallback_missed_for_inherited_key :
  ~ In "constructor" (map fst MODEL_PARAMS) /\
  predictRemoval "constructor" "Cd(II)" 6 10 15 false = {| mean := NaN; std := NaN |}.
Proof.
  split.
  - simpl. intuition discriminate.
  - apply predictRemoval_inherited_material; [reflexivity|].
    intros H. discriminate H.
Qed.

(** C4.  For the identifier ["constructor"], which [MODEL_PARAMS] inherits
    from Object.prototype, and every pH, concentration, contact time and
    competition flag, the returned mean is not in [0, 100] and the returned
    std is not positive: both are NaN. *)
Theorem range_fails_for_inherited_key (pH concentration time : R) (competition : bool) :
  ~ within 0 100
      (mean (predictRemoval "constructor" "Cd(II)" pH concentration time competition)) /\
  ~ is_positive
      (std (predictRemoval "constructor" "Cd(II)" pH concentration time competition)).
Proof.
  rewrite predictRemoval_inherited_material; [|reflexivity|intros H; discriminate H].
  simpl. tauto.
Qed.

(** ** Evaluation at concrete inputs *)

Lemma rawRemoval_enclosure (m : Material) (p : Pollutant) (pH c t : R) (comp : bool)
  (k1 k2 f1 f2 g1 g2 : R) :
  0 <= base m -> 0 <= optMul p ->
  0 <= k1 <= kinetic m t -> kinetic m t <= k2 ->
  0 <= f1 <= phEffect p pH -> phEffect p pH <= f2 ->
  0 <= g1 <= concEffect m p c -> concEffect m p c <= g2 ->
  base m * optMul p * compPenalty comp * (k1 * f1 * g1) + synergy m
  <= rawRemoval m p pH c t comp
  <= base m * optMul p * compPenalty comp * (k2 * f2 * g2) + synergy m.
Proof.
  intros Hb Ho Hk1 Hk2 Hf1 Hf2 Hg1 Hg2.
  pose proof (compPenalty_pos comp) as Hc.
  destruct (product_enclosure _ _ _ _ _ _ Hk1 Hk2 Hf1 Hf2) as [P1 P2].
  assert (Q1 : 0 <= k1 * f1 <= kinetic m t * phEffect p pH)
    by (split; [apply Rmult_le_pos; lra | exact P1]).
  destruct (product_enclosure _ _ _ _ _ _ Q1 P2 Hg1 Hg2) as [R1 R2].
  assert (Hs : 0 <= base m * optMul p * compPenalty comp)
    by (repeat apply Rmult_le_pos; lra).
  unfold rawRemoval.
  replace (base m * kinetic m t * phEffect p pH * concEffect m p c * optMul p
           * compPenalty comp)
    with (base m * optMul p * compPenalty comp
          * (kinetic m t * phEffect p pH * concEffect m p c)) by ring.
  split; apply Rplus_le_compat_r, Rmult_le_compat_l; assumption.
Qed.

Lemma predictRemoval_at (adsorbent pollutant : string) (m : Material) (p : Pollutant)
  (pH c t : R) (comp : bool) (zm zs : Z) :
  get MODEL_PARAMS adsorbent = Own m -> get POLLUTANT_MOD pollutant = Own p ->
  0 <= rawRemoval m p pH c t comp <= 100 ->
  IZR zm - 1 / 2 <= rawRemoval m p pH c t comp * 100 < IZR zm + 1 / 2 ->
  IZR zs - 1 / 2 <= rawStd m pH t * 100 < IZR zs + 1 / 2 ->
  predictRemoval adsorbent pollutant pH c t comp =
  {| mean := Num (IZR zm / 100); std := Num (IZR zs / 100) |}.
Proof.
  intros Hm Hp Hr Hzm Hzs. rewrite (predictRemoval_own _ _ m p) by assumption.
  rewrite clamp_id by assumption.
  now rewrite (round2_eq zm), (round2_eq zs).
Qed.

(* the logistic factor at pH 6 of a contaminant favoured at high pH *)
Lemma phEffect_Cd_6 : 0.90465053 <= phEffect Cd_II 6 <= 0.90465054.
Proof.
  unfold phEffect, Cd_II; cbn [phDir Z.eqb Pos.eqb].
  enclose (-9)%Z 4%Z as E.
  replace (-1.5 * (6 - 4.5)) with (IZR (-9) / IZR 4) by lra.
  set (e := exp (IZR (-9) / IZR 4)) in *.
  apply logistic_enclosure; lra.
Qed.

(* MNCJG and Cd(II) at pH 6, concentration 5, contact time 30 *)
Lemma scenario_factors :
  0.99548341 <= kinetic MNCJG 30 <= 0.99548342 /\ concEffect MNCJG Cd_II 5 = 1.
Proof.
  unfold kinetic, concEffect, MNCJG, Cd_II; cbn [timeK concDecay concBase].
  enclose (-54)%Z 10%Z as E.
  replace (- (0.18) * 30) with (IZR (-54) / IZR 10) by lra.
  replace (- (0.008) * (5 - 5)) with 0 by lra. rewrite exp_0.
  split; lra.
Qed.

Lemma scenario_raw : 91.9945 <= rawRemoval MNCJG Cd_II 6 5 30 false <= 91.9946.
Proof.
  destruct scenario_factors as ([K1 K2] & G). destruct phEffect_Cd_6 as [F1 F2].
  pose proof (rawRemoval_enclosure MNCJG Cd_II 6 5 30 false
                0.99548341 0.99548342 0.90465053 0.90465054 1 1) as H.
  rewrite G in H. simpl base in H. simpl optMul in H. simpl synergy in H.
  unfold compPenalty in H.
  specialize (H ltac:(lra) ltac:(lra) ltac:(lra) ltac:(lra) ltac:(lra) ltac:(lra)
                ltac:(lra) ltac:(lra)).
  lra.
Qed.

Lemma scenario_prediction :
  predictRemoval "MNCJG" "Cd(II)" 6 5 30 false = {| mean := Num 91.99; std := Num 2.01 |}.
Proof.
  destruct scenario_factors as ([K1 K2] & _).
  pose proof scenario_raw as R.
  rewrite (predictRemoval_at "MNCJG" "Cd(II)" MNCJG Cd_II 6 5 30 false 9199 201).
  - f_equal; f_equal; lra.
  - reflexivity.
  - reflexivity.
  - lra.
  - lra.
  - unfold rawStd. simpl phOpt. replace (6 - 6.0) with 0 by lra. rewrite Rabs_R0. lra.
Qed.

(** C2, as the code has it.  For MNCJG (base 92, rate constant 0.18, pH
    optimum 6.0) and Cd(II) (favoured at high pH, multiplier 1.05, reference
    concentration 5) at pH 6, concentration 5, contact time 30 without
    competition: the kinetic factor is 0.9955 and the pH factor 0.9047, each
    to four decimals, the concentration factor is 1, the raw removal is
    91.99 to two decimals, and the result is mean 91.99, std 2.01. *)
Theorem scenario_MNCJG_Cd :
  get MODEL_PARAMS "MNCJG" = Own MNCJG /\ get POLLUTANT_MOD "Cd(II)" = Own Cd_II /\
  (base MNCJG = 92 /\ timeK MNCJG = 0.18 /\ phOpt MNCJG = 6.0) /\
  (phDir Cd_II = 1%Z /\ optMul Cd_II = 1.05 /\ concBase Cd_II = 5) /\
  Rabs (kinetic MNCJG 30 - 0.9955) < 0.00005 /\
  Rabs (phEffect Cd_II 6 - 0.9047) < 0.00005 /\
  concEffect MNCJG Cd_II 5 = 1 /\
  Rabs (rawRemoval MNCJG Cd_II 6 5 30 false - 91.99) < 0.005 /\
  predictRemoval "MNCJG" "Cd(II)" 6 5 30 false = {| mean := Num 91.99; std := Num 2.01 |}.
Proof.
  destruct scenario_factors as ([K1 K2] & G). destruct phEffect_Cd_6 as [F1 F2].
  pose proof scenario_raw as [R1 R2].
  repeat split; try reflexivity; try exact G; try apply scenario_prediction;
    apply Rabs_def1; lra.
Qed.

(** C2 fails as stated: at that input the returned mean is not within 0.05
    of 95.0, the pH factor is more than 0.08 away from 0.9909, and the
    kinetic factor more than 0.0004 away from 0.9959. *)
Lemma scenario_mean_not_95 :
  ~ within 94.95 95.05 (mean (predictRemoval "MNCJG" "Cd(II)" 6 5 30 false)) /\
  0.08 < Rabs (phEffect Cd_II 6 - 0.9909) /\
  0.0004 < Rabs (kinetic MNCJG 30 - 0.9959).
Proof.
  destruct scenario_factors as ([K1 K2] & _). destruct phEffect_Cd_6 as [F1 F2].
  rewrite scenario_prediction. simpl. repeat split.
  - lra.
  - rewrite Rabs_left by lra. lra.
  - rewrite Rabs_left by lra. lra.
Qed.

(** ** The search loop *)

Lemma run_S (random : nat -> R) (pollutant adsorbent : string) (targetRemoval : R)
  (phRange timeRange concRange : R * R) (n : nat) :
  run random pollutant adsorbent targetRemoval phRange timeRange concRange (S n) =
  loop_body random pollutant adsorbent targetRemoval phRange timeRange concRange
    (run random pollutant adsorbent targetRemoval phRange timeRange concRange n) n.
Proof. unfold run. now rewrite seq_S, fold_left_app. Qed.

Lemma loop_body_trial (random : nat -> R) (pollutant adsorbent : string)
  (targetRemoval : R) (phRange timeRange concRange : R * R) (st : LoopState) (i : nat) :
  let score :=
    trial_score random pollutant adsorbent targetRemoval phRange timeRange concRange i in
  let params := trial_params random pollutant adsorbent phRange timeRange concRange i in
  let sample :=
    trial_sample random pollutant adsorbent targetRemoval phRange timeRange concRange i in
  draws st = (3 * i)%nat ->
  loop_body random pollutant adsorbent targetRemoval phRange timeRange concRange st i =
  {| bestParams := if above score (bestScore st) then Some params else bestParams st;
     bestScore := if above score (bestScore st) then as_bound score else bestScore st;
     hist := (hist st ++ [sample])%list;
     draws := (3 * S i)%nat |}.
Proof.
  intros score params sample Hd. unfold loop_body. rewrite Hd.
  change (acquisition targetRemoval _) with score.
  replace (3 * i + 3)%nat with (3 * S i)%nat by lia.
  destruct (above score (bestScore st)); reflexivity.
Qed.

Lemma nth_error_map_seq {A : Type} (f : nat -> A) (n j : nat) :
  (j < n)%nat -> nth_error (map f (seq 0 n)) j = Some (f j).
Proof.
  intros Hj. rewrite nth_error_map.
  rewrite (nth_error_nth' _ 0%nat) by now rewrite length_seq.
  now rewrite seq_nth.
Qed.

Section SearchFacts.

Variable random : nat -> R.
Variables pollutant adsorbent : string.
Variable targetRemoval : R.
Variables phRange timeRange concRange : R * R.

#[local] Abbreviation run :=
  (run random pollutant adsorbent targetRemoval phRange timeRange concRange).
#[local] Abbreviation trial_pred :=
  (trial_pred random pollutant adsorbent phRange timeRange concRange).
#[local] Abbreviation trial_score :=
  (trial_score random pollutant adsorbent targetRemoval phRange timeRange concRange).
#[local] Abbreviation trial_params :=
  (trial_params random pollutant adsorbent phRange timeRange concRange).
#[local] Abbreviation trial_sample :=
  (trial_sample random pollutant adsorbent targetRemoval phRange timeRange concRange).
#[local] Abbreviation first_maximum :=
  (first_maximum random pollutant adsorbent targetRemoval phRange timeRange concRange).
#[local] Abbreviation bayesianOptimize :=
  (bayesianOptimize random pollutant adsorbent targetRemoval phRange timeRange concRange).

Lemma run_draws (n : nat) : draws (run n) = (3 * n)%nat.
Proof.
  induction n as [|n IH]; [reflexivity|].
  rewrite run_S, (loop_body_trial _ _ _ _ _ _ _ _ _ IH). reflexivity.
Qed.

Lemma run_step (n : nat) :
  run (S n) =
  {| bestParams := if above (trial_score n) (bestScore (run n))
                   then Some (trial_params n) else bestParams (run n);
     bestScore := if above (trial_score n) (bestScore (run n))
                  then as_bound (trial_score n) else bestScore (run n);
     hist := (hist (run n) ++ [trial_sample n])%list;
     draws := (3 * S n)%nat |}.
Proof. rewrite run_S. apply loop_body_trial, run_draws. Qed.

Lemma run_hist (n : nat) : hist (run n) = map trial_sample (seq 0 n).
Proof.
  induction n as [|n IH]; [reflexivity|].
  rewrite run_step. simpl hist. now rewrite IH, seq_S, map_app.
Qed.

Lemma search_best (n : nat) : best (bayesianOptimize n) = bestParams (run n).
Proof. reflexivity. Qed.

Lemma search_history (n : nat) :
  history (bayesianOptimize n) = map trial_sample (seq 0 n).
Proof. apply run_hist. Qed.

(** C6.  For every call and every iteration count [nIter], the returned
    history has exactly [nIter] entries and their [iteration] fields are, in
    order, 1, 2, ..., [nIter]. *)
Theorem history_indices (nIter : nat) :
  List.length (history (bayesianOptimize nIter)) = nIter /\
  map Sample.iteration (history (bayesianOptimize nIter)) = seq 1 nIter.
Proof.
  rewrite search_history. split.
  - now rewrite length_map, length_seq.
  - rewrite map_map. simpl Sample.iteration. rewrite <- seq_shift.
    apply map_ext. intros i. lia.
Qed.

(* after [n] iterations the running best is empty and no score so far was a
   number, or it is the first sample with the largest score *)
Lemma run_best (n : nat) :
  (bestParams (run n) = None /\ bestScore (run n) = NegInfinity /\
   forall i, (i < n)%nat -> trial_score i = NaN) \/
  (exists j s, first_maximum n j s /\
     bestParams (run n) = Some (trial_params j) /\ bestScore (run n) = Finite s).
Proof.
  induction n as [|n IH].
  - left. repeat split; try reflexivity. intros i Hi. lia.
  - rewrite run_step. simpl bestParams. simpl bestScore.
    destruct IH as [(Hp & Hs & Hall) | (j & s & (Hj & Hsj & Hmax & Hfirst) & Hp & Hs)].
    + rewrite Hs. destruct (trial_score n) as [a|] eqn:Ea; simpl.
      * right. exists n, a. repeat split; try reflexivity; try lia; try assumption.
        -- intros i si Hi Hsi. assert (i = n \/ i < n)%nat as [->|Hlt] by lia.
           ++ rewrite Ea in Hsi. injection Hsi as <-. lra.
           ++ rewrite Hall in Hsi by assumption. discriminate.
        -- intros i si Hi Hsi. rewrite Hall in Hsi by assumption. discriminate.
      * left. repeat split; try assumption.
        intros i Hi. assert (i = n \/ i < n)%nat as [->|Hlt] by lia; auto.
    + rewrite Hs. destruct (trial_score n) as [a|] eqn:Ea; simpl.
      * destruct (Rlt_dec s a) as [Hlt|Hge].
        -- right. exists n, a. repeat split; try reflexivity; try lia; try assumption.
           ++ intros i si Hi Hsi. assert (i = n \/ i < n)%nat as [->|Hlt'] by lia.
              ** rewrite Ea in Hsi. injection Hsi as <-. lra.
              ** specialize (Hmax i si Hlt' Hsi). lra.
           ++ intros i si Hi Hsi. specialize (Hmax i si Hi Hsi). lra.
        -- right. exists j, s. repeat split; try assumption; try lia.
           intros i si Hi Hsi. assert (i = n \/ i < n)%nat as [->|Hlt'] by lia.
           ++ rewrite Ea in Hsi. injection Hsi as <-. lra.
           ++ eapply Hmax; eassumption.
      * right. exists j, s. repeat split; try assumption; try lia.
        intros i si Hi Hsi. assert (i = n \/ i < n)%nat as [->|Hlt'] by lia.
        -- rewrite Ea in Hsi. discriminate.
        -- eapply Hmax; eassumption.
Qed.


End SearchFacts.

Lemma acquisition_numeric (targetRemoval : R) (pred : Prediction) :
  (exists a, mean pred = Num a) -> (exists b, std pred = Num b) ->
  exists s, acquisition targetRemoval pred = Num s.
Proof.
  intros [a Ha] [b Hb]. unfold acquisition. rewrite Ha, Hb. simpl.
  destruct (Rle_dec targetRemoval a); eexists; reflexivity.
Qed.

Lemma acquisition_nan (targetRemoval : R) (pred : Prediction) :
  mean pred = NaN -> acquisition targetRemoval pred = NaN.
Proof. intros H. unfold acquisition. now rewrite H. Qed.

Lemma trial_score_numeric (random : nat -> R) (pollutant adsorbent : string)
  (targetRemoval : R) (phRange timeRange concRange : R * R) (i : nat) :
  ~ inherited MODEL_PARAMS adsorbent -> ~ inherited POLLUTANT_MOD pollutant ->
  exists s,
    trial_score random pollutant adsorbent targetRemoval phRange timeRange concRange i
    = Num s.
Proof.
  intros Hm Hp. unfold trial_score, trial_pred.
  apply acquisition_numeric; now apply prediction_numeric.
Qed.

Lemma trial_score_inherited (random : nat -> R) (pollutant adsorbent : string)
  (targetRemoval : R) (phRange timeRange concRange : R * R) (i : nat) :
  inherited MODEL_PARAMS adsorbent -> get POLLUTANT_MOD pollutant <> Undefined ->
  trial_score random pollutant adsorbent targetRemoval phRange timeRange concRange i
  = NaN.
Proof.
  intros Hm Hp. unfold trial_score, trial_pred. apply acquisition_nan.
  now rewrite predictRemoval_inherited_material.
Qed.

(** C10.  With the adsorbent ["constructor"], which [MODEL_PARAMS] inherits
    from Object.prototype, every call returns [best = null], whatever the
    draws, the target, the ranges and the iteration count, [nIter >= 1]
    included: every score is NaN and no comparison [score > bestScore]
    succeeds. *)
Theorem search_best_null_for_inherited_key (random : nat -> R) (targetRemoval : R)
  (phRange timeRange concRange : R * R) (nIter : nat) :
  best (bayesianOptimize random "Cd(II)" "constructor" targetRemoval phRange timeRange
          concRange nIter) = None.
Proof.
  rewrite search_best.
  destruct (run_best random "Cd(II)" "constructor" targetRemoval phRange timeRange
              concRange nIter) as [(Hb & _) | (j & s & (_ & Hs & _) & _)];
    [assumption|].
  rewrite trial_score_inherited in Hs; [discriminate | reflexivity |].
  intros H. discriminate H.
Qed.

(** ** The run with two samples *)


Section TwoSamples.

#[local] Abbreviation pred2 :=
  (trial_pred two_draws "Cd(II)" "MNCJG" (6, 7) (0, 0) (10, 10)).
#[local] Abbreviation score2 :=
  (trial_score two_draws "Cd(II)" "MNCJG" 0 (6, 7) (0, 0) (10, 10)).
#[local] Abbreviation params2 :=
  (trial_params two_draws "Cd(II)" "MNCJG" (6, 7) (0, 0) (10, 10)).
#[local] Abbreviation sample2 :=
  (trial_sample two_draws "Cd(II)" "MNCJG" 0 (6, 7) (0, 0) (10, 10)).
#[local] Abbreviation search2 :=
  (bayesianOptimize two_draws "Cd(II)" "MNCJG" 0 (6, 7) (0, 0) (10, 10)).









End TwoSamples.

(** ** Array_sort *)

Section SortFacts.

Context {A : Type}.
Variable cmp : A -> A -> num.

Lemma insert_perm (x : A) (l : list A) : Permutation (insert cmp x l) (x :: l).
Proof.
  induction l as [|y l IH]; simpl; [reflexivity|].
  destruct (gt (cmp x y) (Num 0)); [|reflexivity].
  rewrite IH. apply perm_swap.
Qed.

Lemma Array_sort_perm (l : list A) : Permutation (Array_sort cmp l) l.
Proof.
  induction l as [|x l IH]; simpl; [reflexivity|].
  rewrite insert_perm. now constructor.
Qed.

Lemma Array_sort_length (l : list A) : List.length (Array_sort cmp l) = List.length l.
Proof. apply Permutation_length, Array_sort_perm. Qed.

(* elements with a numeric key, compared as [key b - key a]; [earlier] is an
   order in which the input is listed *)
Variable key : A -> R.
Variable numeric : A -> Prop.
Variable earlier : A -> A -> Prop.
Hypothesis cmp_key :
  forall a b, numeric a -> numeric b -> cmp a b = Num (key b - key a).

Lemma insert_sorted (x : A) (l : list A) :
  numeric x -> Forall numeric l -> Forall (earlier x) l ->
  StronglySorted (precedes key earlier) l ->
  StronglySorted (precedes key earlier) (insert cmp x l).
Proof.
  intros Hx Hn He Hs. induction l as [|y l IH]; simpl.
  - repeat constructor.
  - inversion Hn as [|? ? Hy Hn']; subst. inversion He as [|? ? Hey He']; subst.
    inversion Hs as [|? ? Hs' Hall]; subst.
    rewrite (cmp_key x y Hx Hy). simpl.
    destruct (Rlt_dec 0 (key y - key x)) as [Hlt|Hge].
    + constructor; [now apply IH|].
      apply (Permutation_Forall (x := x :: l)); [symmetry; apply insert_perm|].
      constructor; [left; lra | assumption].
    + constructor; [assumption|]. constructor.
      * destruct (Rle_lt_or_eq_dec (key y) (key x) ltac:(lra)) as [Hlt|Heq];
          [left; assumption | right; split; [now symmetry | assumption]].
      * rewrite Forall_forall in *. intros z Hz.
        specialize (Hall z Hz). specialize (He' z Hz).
        destruct Hall as [Hlt|[Heq _]].
        -- left. lra.
        -- destruct (Rle_lt_or_eq_dec (key y) (key x) ltac:(lra)) as [Hlt|Heq'];
             [left; lra | right; split; [lra | assumption]].
Qed.

Lemma Array_sort_sorted (l : list A) :
  Forall numeric l -> StronglySorted earlier l ->
  StronglySorted (precedes key earlier) (Array_sort cmp l).
Proof.
  intros Hn He. induction l as [|x l IH]; simpl; [constructor|].
  inversion Hn as [|? ? Hx Hn']; subst. inversion He as [|? ? He' Hall]; subst.
  apply insert_sorted; try assumption.
  - apply (Permutation_Forall (x := l)); [symmetry; apply Array_sort_perm | assumption].
  - apply (Permutation_Forall (x := l)); [symmetry; apply Array_sort_perm | assumption].
  - now apply IH.
Qed.

End SortFacts.

Lemma StronglySorted_weaken {A : Type} (P : A -> Prop) (R1 R2 : A -> A -> Prop)
  (l : list A) :
  (forall a b, P a -> P b -> R1 a b -> R2 a b) -> Forall P l ->
  StronglySorted R1 l -> StronglySorted R2 l.
Proof.
  intros H HP Hs. induction Hs as [|a l Hs IH Ha]; [constructor|].
  inversion HP as [|? ? Pa Pl]; subst. constructor; [now apply IH|].
  rewrite Forall_forall in *. intros b Hb. apply H; auto.
Qed.

(** ** computeSHAP *)

Lemma features_sorted (l : list Feature) :
  Forall (fun f => exists r, absValue f = Num r) l ->
  StronglySorted (fun a b => (rank a < rank b)%nat) l ->
  descending_stable (Array_sort (fun a b => (absValue b - absValue a)%js) l).
Proof.
  intros Hn Hr. unfold descending_stable.
  set (numeric := fun f : Feature => exists r, absValue f = Num r) in *.
  set (key := fun f : Feature => match absValue f with Num r => r | NaN => 0 end).
  apply (StronglySorted_weaken numeric
           (precedes key (fun a b => (rank a < rank b)%nat))).
  - intros a b [x Ha] [y Hb]. unfold precedes, ranked_before, key.
    rewrite Ha, Hb. tauto.
  - apply (Permutation_Forall (x := l)); [symmetry; apply Array_sort_perm | assumption].
  - apply (Array_sort_sorted _ key numeric); try assumption.
    intros a b [x Ha] [y Hb]. unfold key. now rewrite Ha, Hb.
Qed.

Lemma mean_numeric (adsorbent pollutant : string) (pH c t : R) (comp : bool) :
  ~ inherited MODEL_PARAMS adsorbent -> ~ inherited POLLUTANT_MOD pollutant ->
  exists r, mean (predictRemoval adsorbent pollutant pH c t comp) = Num r.
Proof. intros Hm Hp. now apply prediction_numeric. Qed.

Lemma computeSHAP_length (adsorbent pollutant : string) (pH concentration time : R) :
  List.length (computeSHAP adsorbent pollutant pH concentration time) = 6%nat.
Proof. unfold computeSHAP. now rewrite Array_sort_length, length_map. Qed.

(** For every pH, concentration and contact time and every pair of
    identifiers neither of which is a member of Object.prototype, the result
    has exactly 6 items, in descending order of absolute contribution, items
    of equal absolute contribution in the order of the source (Contact Time,
    Initial pH, Concentration, Adsorbent Type, Pollutant Type, Competition). *)
Theorem computeSHAP_sorted_stable (adsorbent pollutant : string) (pH concentration time : R) :
  ~ inherited MODEL_PARAMS adsorbent -> ~ inherited POLLUTANT_MOD pollutant ->
  List.length (computeSHAP adsorbent pollutant pH concentration time) = 6%nat /\
  descending_stable (computeSHAP adsorbent pollutant pH concentration time).
Proof.
  intros Hm Hp. split; [apply computeSHAP_length|]. unfold computeSHAP.
  assert (HNC : ~ inherited MODEL_PARAMS "NC") by (intros H; discriminate H).
  assert (HCd : ~ inherited POLLUTANT_MOD "Cd(II)") by (intros H; discriminate H).
  destruct (mean_numeric adsorbent pollutant 6 10 15 false Hm Hp) as [b Eb].
  destruct (mean_numeric adsorbent pollutant 6 10 time false Hm Hp) as [v1 E1].
  destruct (mean_numeric adsorbent pollutant pH 10 15 false Hm Hp) as [v2 E2].
  destruct (mean_numeric adsorbent pollutant 6 concentration 15 false Hm Hp) as [v3 E3].
  destruct (mean_numeric "NC" pollutant 6 10 15 false HNC Hp) as [v4 E4].
  destruct (mean_numeric adsorbent "Cd(II)" 6 10 15 false Hm HCd) as [v5 E5].
  apply features_sorted; unfold features; rewrite ?Eb, ?E1, ?E2, ?E3, ?E4, ?E5;
    cbn [map fst snd].
  - repeat constructor; cbn [absValue]; eexists; reflexivity.
  - repeat constructor; unfold rank; cbn; lia.
Qed.

Lemma computeSHAP_sorted_stable_witness :
  List.length (computeSHAP "MNCJG" "Cd(II)" 7 20 30) = 6%nat /\
  descending_stable (computeSHAP "MNCJG" "Cd(II)" 7 20 30).
Proof.
  apply computeSHAP_sorted_stable; intros H; discriminate H.
Defined.

(** C9.  For the adsorbent ["constructor"], which [MODEL_PARAMS] inherits
    from Object.prototype, the result of
    [computeSHAP "constructor" "Cd(II)" 6 10 15] is the list of the six
    factors in the order of the source, the first five with value and
    absolute value NaN and Competition last with absolute value 3.2; it is
    not in descending order of absolute contribution. *)
Theorem explain_unsorted_for_inherited_key :
  computeSHAP "constructor" "Cd(II)" 6 10 15 =
    [ {| name := "Contact Time"; value := NaN; absValue := NaN |};
      {| name := "Initial pH"; value := NaN; absValue := NaN |};
      {| name := "Concentration"; value := NaN; absValue := NaN |};
      {| name := "Adsorbent Type"; value := NaN; absValue := NaN |};
      {| name := "Pollutant Type"; value := NaN; absValue := NaN |};
      {| name := "Competition"; value := Num (-3.2); absValue := Num 3.2 |} ] /\
  ~ descending_stable (computeSHAP "constructor" "Cd(II)" 6 10 15).
Proof.
  assert (E : computeSHAP "constructor" "Cd(II)" 6 10 15 =
    [ {| name := "Contact Time"; value := NaN; absValue := NaN |};
      {| name := "Initial pH"; value := NaN; absValue := NaN |};
      {| name := "Concentration"; value := NaN; absValue := NaN |};
      {| name := "Adsorbent Type"; value := NaN; absValue := NaN |};
      {| name := "Pollutant Type"; value := NaN; absValue := NaN |};
      {| name := "Competition"; value := Num (-3.2); absValue := Num 3.2 |} ]).
  { unfold computeSHAP, features.
    rewrite predictRemoval_inherited_material;
      [|reflexivity|intros H; discriminate H].
    cbn [map fst snd mean sub lift2 lift1 toFixed Math_abs].
    replace (toFixedR 2 (-3.2)) with (-3.2)
      by (rewrite (toFixedR_neg 2 (-3.2) 320) by lra; lra).
    replace (toFixedR 2 (Rabs (-3.2))) with 3.2
      by (rewrite Rabs_left by lra;
          rewrite (toFixedR_nonneg 2 (- -3.2) 320) by lra; lra).
    reflexivity. }
  split; [exact E|]. rewrite E. unfold descending_stable. intros H.
  inversion H as [|? ? _ Hall]; subst.
  inversion Hall as [|? ? Hxy _]; subst. exact Hxy.
Qed.

(* MNCJG and NC with Cd(II) at the operating point pH 6, concentration 10,
   contact time 15 *)
Lemma baseline_MNCJG :
  predictRemoval "MNCJG" "Cd(II)" 6 10 15 false = {| mean := Num 83.32; std := Num 2.2 |}.
Proof.
  assert (K : 0.93279448 <= kinetic MNCJG 15 <= 0.93279449).
  { unfold kinetic. enclose (-27)%Z 10%Z as E.
    replace (- timeK MNCJG * 15) with (IZR (-27) / IZR 10) by (simpl timeK; lra). lra. }
  assert (G : 0.96078943 <= concEffect MNCJG Cd_II 10 <= 0.96078944).
  { unfold concEffect. enclose (-1)%Z 25%Z as E.
    replace (- concDecay MNCJG * (10 - concBase Cd_II)) with (IZR (-1) / IZR 25)
      by (simpl concDecay; simpl concBase; lra).
    lra. }
  destruct phEffect_Cd_6 as [F1 F2].
  pose proof (rawRemoval_enclosure MNCJG Cd_II 6 10 15 false
                0.93279448 0.93279449 0.90465053 0.90465054 0.96078943 0.96078944) as H.
  simpl base in H. simpl optMul in H. simpl synergy in H. unfold compPenalty in H.
  specialize (H ltac:(lra) ltac:(lra) ltac:(lra) ltac:(lra) ltac:(lra) ltac:(lra)
                ltac:(lra) ltac:(lra)).
  rewrite (predictRemoval_at "MNCJG" "Cd(II)" MNCJG Cd_II 6 10 15 false 8332 220).
  - f_equal; f_equal; lra.
  - reflexivity.
  - reflexivity.
  - lra.
  - lra.
  - unfold rawStd. simpl phOpt. replace (6 - 6.0) with 0 by lra. rewrite Rabs_R0. lra.
Qed.

Lemma baseline_NC :
  predictRemoval "NC" "Cd(II)" 6 10 15 false = {| mean := Num 37.09; std := Num 2.92 |}.
Proof.
  assert (K : 0.77686983 <= kinetic NC 15 <= 0.77686984).
  { unfold kinetic. enclose (-3)%Z 2%Z as E.
    replace (- timeK NC * 15) with (IZR (-3) / IZR 2) by (simpl timeK; lra). lra. }
  assert (G : 0.91393118 <= concEffect NC Cd_II 10 <= 0.91393119).
  { unfold concEffect. enclose (-9)%Z 100%Z as E.
    replace (- concDecay NC * (10 - concBase Cd_II)) with (IZR (-9) / IZR 100)
      by (simpl concDecay; simpl concBase; lra).
    lra. }
  destruct phEffect_Cd_6 as [F1 F2].
  pose proof (rawRemoval_enclosure NC Cd_II 6 10 15 false
                0.77686983 0.77686984 0.90465053 0.90465054 0.91393118 0.91393119) as H.
  simpl base in H. simpl optMul in H. simpl synergy in H. unfold compPenalty in H.
  specialize (H ltac:(lra) ltac:(lra) ltac:(lra) ltac:(lra) ltac:(lra) ltac:(lra)
                ltac:(lra) ltac:(lra)).
  rewrite (predictRemoval_at "NC" "Cd(II)" NC Cd_II 6 10 15 false 3709 292).
  - f_equal; f_equal; lra.
  - reflexivity.
  - reflexivity.
  - lra.
  - lra.
  - unfold rawStd. simpl phOpt. replace (6 - 5.5) with 0.5 by lra.
    rewrite Rabs_pos_eq by lra. lra.
Qed.

(** C1, as the code has it.  For every material, contaminant, pH,
    concentration and contact time, the result of [computeSHAP] has an item
    of each of the names Contact Time, Initial pH and Concentration, and the
    value of such an item is, rounded to two decimals, the mean predicted
    with that one input at its actual value minus the mean predicted at
    pH 6, concentration 10, contact time 15 for the SAME material and
    contaminant as the call (not for a reference material or contaminant). *)
Theorem explain_baseline_is_own_pair (adsorbent pollutant : string)
  (pH concentration time : R) :
  let base := mean (predictRemoval adsorbent pollutant 6 10 15 false) in
  let result := computeSHAP adsorbent pollutant pH concentration time in
  incl ["Contact Time"; "Initial pH"; "Concentration"] (map name result) /\
  Forall (fun f =>
    (name f = "Contact Time" ->
     value f = toFixed 2 (mean (predictRemoval adsorbent pollutant 6 10 time false)
                          - base)%js) /\
    (name f = "Initial pH" ->
     value f = toFixed 2 (mean (predictRemoval adsorbent pollutant pH 10 15 false)
                          - base)%js) /\
    (name f = "Concentration" ->
     value f = toFixed 2 (mean (predictRemoval adsorbent pollutant 6 concentration 15 false)
                          - base)%js)) result.
Proof.
  intros base result. subst result. unfold computeSHAP.
  set (cmp := fun a b : Feature => (absValue b - absValue a)%js).
  set (items := map _ (features adsorbent pollutant pH concentration time)).
  pose proof (Array_sort_perm cmp items) as Hperm.
  split.
  - intros n Hn. apply (Permutation_in n (Permutation_map name (Permutation_sym Hperm))).
    unfold items, features. cbn [map fst snd name].
    simpl in Hn. intuition (subst n; simpl; tauto).
  - apply (Permutation_Forall (Permutation_sym Hperm)).
    unfold items, features. cbn [map fst snd].
    repeat constructor; cbn [name value]; intros H; try discriminate H; reflexivity.
Qed.

(* a number that [toFixed(2)] prints as 0 is less than 0.005 in magnitude *)
Lemma toFixedR_2_zero (x : R) : toFixedR 2 x = 0 -> -0.005 < x < 0.005.
Proof.
  unfold toFixedR. pose proof (pow10_pos 21) as H21.
  destruct (Rle_dec (10 ^ 21) (Rabs x)) as [Hb|_].
  - intros ->. rewrite Rabs_R0 in Hb. lra.
  - destruct (Rle_dec 0 x) as [Hp|Hn]; intros H.
    + pose proof (Zfloor_bound (x * 10 ^ 2 + 1 / 2)) as B.
      assert (E : IZR (Zfloor (x * 10 ^ 2 + 1 / 2)) = 0) by (simpl in H |- *; lra).
      rewrite E in B. simpl in B. lra.
    + pose proof (Zfloor_bound (- x * 10 ^ 2 + 1 / 2)) as B.
      assert (E : IZR (Zfloor (- x * 10 ^ 2 + 1 / 2)) = 0) by (simpl in H |- *; lra).
      rewrite E in B. simpl in B. lra.
Qed.

Lemma contact_time_at_baseline (adsorbent pollutant : string) (r : R) :
  mean (predictRemoval adsorbent pollutant 6 10 15 false) = Num r ->
  In {| name := "Contact Time"; value := Num 0; absValue := Num 0 |}
     (computeSHAP adsorbent pollutant 6 10 15).
Proof.
  intros E. unfold computeSHAP.
  apply (Permutation_in _ (Permutation_sym (Array_sort_perm _ _))).
  unfold features. rewrite E. cbn [map fst snd]. left.
  cbn [sub lift2 lift1 toFixed Math_abs].
  replace (r - r) with 0 by lra. rewrite Rabs_R0.
  rewrite (toFixedR_nonneg 2 0 0) by lra.
  repeat f_equal; lra.
Qed.

(** C1 fails as stated: for MNCJG and Cd(II) at pH 6, concentration 10 and
    contact time 15 the Contact Time item of the result has value 0, whereas
    the mean predicted for the call minus the mean predicted at the same
    point for the reference material NC and the reference contaminant Cd(II)
    (the ones of the Adsorbent Type and Pollutant Type items) is 46.23.
    Nor does any other fixed baseline fit: the Contact Time item is 0 for NC
    and Cd(II) at that point too, and no number is within rounding of both
    83.32 and 37.09. *)
Lemma contact_time_not_against_reference :
  In {| name := "Contact Time"; value := Num 0; absValue := Num 0 |}
     (computeSHAP "MNCJG" "Cd(II)" 6 10 15) /\
  (mean (predictRemoval "MNCJG" "Cd(II)" 6 10 15 false)
   - mean (predictRemoval "NC" "Cd(II)" 6 10 15 false))%js = Num 46.23 /\
  In {| name := "Contact Time"; value := Num 0; absValue := Num 0 |}
     (computeSHAP "NC" "Cd(II)" 6 10 15) /\
  forall baseline : num,
    ~ (toFixed 2 (mean (predictRemoval "MNCJG" "Cd(II)" 6 10 15 false) - baseline)%js
       = Num 0 /\
       toFixed 2 (mean (predictRemoval "NC" "Cd(II)" 6 10 15 false) - baseline)%js
       = Num 0).
Proof.
  repeat split.
  - apply (contact_time_at_baseline _ _ 83.32). now rewrite baseline_MNCJG.
  - rewrite baseline_MNCJG, baseline_NC. simpl. f_equal. lra.
  - apply (contact_time_at_baseline _ _ 37.09). now rewrite baseline_NC.
  - intros [b|]; rewrite baseline_MNCJG, baseline_NC; simpl; intros [H1 H2];
      [|discriminate].
    injection H1 as H1. injection H2 as H2.
    apply toFixedR_2_zero in H1. apply toFixedR_2_zero in H2. lra.
Qed.

(** ** Loops of the panels *)

Lemma fold_push {A B : Type} (f : B -> A) (l : list B) (acc : list A) :
  fold_left (fun arr i => (arr ++ [f i])%list) l acc = (acc ++ map f l)%list.
Proof.
  revert acc. induction l as [|x l IH]; intros acc; simpl.
  - now rewrite app_nil_r.
  - rewrite IH, <- app_assoc. reflexivity.
Qed.

Lemma push_each_map {A : Type} (f : nat -> A) (n : nat) :
  push_each f n = map f (seq 0 n).
Proof. unfold push_each. now rewrite fold_push. Qed.

Lemma fold_push_drawing {A : Type} (per : nat) (f : nat -> nat -> A) (len : nat) :
  forall (start : nat) (acc : list A),
  fold_left (fun st i => ((fst st ++ [f i (snd st)])%list, (snd st + per)%nat))
    (seq start len) (acc, (per * start)%nat)
  = ((acc ++ map (fun i => f i (per * i)%nat) (seq start len))%list,
     (per * (start + len))%nat).
Proof.
  induction len as [|len IH]; intros start acc; simpl.
  - rewrite app_nil_r. do 2 f_equal. lia.
  - replace (per * start + per)%nat with (per * S start)%nat by lia.
    rewrite IH, <- app_assoc. simpl. do 2 f_equal. lia.
Qed.

Lemma push_drawing_map {A : Type} (per : nat) (f : nat -> nat -> A) (n : nat) :
  push_drawing per f n = map (fun i => f i (per * i)%nat) (seq 0 n).
Proof.
  unfold push_drawing.
  replace 0%nat with (per * 0)%nat at 2 by lia.
  now rewrite fold_push_drawing.
Qed.

(* a loop whose condition holds for [k] rounds and fails at the next test
   ends, given more than [k] tests, after exactly those rounds *)
Lemma for_upto_rounds {St : Type} (hi step : R) (body : St -> R -> St) (k : nat) :
  forall (fuel : nat) (p : R) (st : St),
  (forall i, (i < k)%nat -> p + INR i * step <= hi) ->
  ~ p + INR k * step <= hi ->
  (k < fuel)%nat ->
  for_upto fuel hi step body p st
  = Some (fold_left body (map (fun i => p + INR i * step) (seq 0 k)) st).
Proof.
  induction k as [|k IH]; intros fuel p st Hin Hout Hfuel;
    (destruct fuel as [|fuel]; [lia|]); simpl for_upto.
  - simpl in Hout. destruct (Rle_dec p hi) as [H|_]; [lra | reflexivity].
  - assert (H0 : p <= hi) by (specialize (Hin 0%nat ltac:(lia)); simpl in Hin; lra).
    destruct (Rle_dec p hi) as [_|H]; [|contradiction].
    rewrite (IH fuel (p + step) (body st p)).
    + f_equal. simpl seq. simpl map. simpl fold_left.
      replace (p + 0 * step) with p by lra.
      rewrite <- seq_shift, map_map. f_equal. apply map_ext. intros i.
      rewrite S_INR. lra.
    + intros i Hi. specialize (Hin (S i) ltac:(lia)). rewrite S_INR in Hin. lra.
    + rewrite S_INR in Hout. lra.
    + lia.
Qed.

(** ** Further properties of [predictRemoval] *)

Lemma prediction_bounds (adsorbent pollutant : string) (pH c t : R) (comp : bool) :
  ~ inherited MODEL_PARAMS adsorbent -> ~ inherited POLLUTANT_MOD pollutant ->
  exists a s,
    predictRemoval adsorbent pollutant pH c t comp = {| mean := Num a; std := Num s |} /\
    0 <= a <= 100 /\ 2 <= s.
Proof.
  intros Hm Hp.
  destruct (get MODEL_PARAMS adsorbent) as [m| |] eqn:Em; [|contradiction|].
  - destruct (get POLLUTANT_MOD pollutant) as [p| |] eqn:Ep; [|contradiction|].
    + rewrite (predictRemoval_own _ _ m p) by assumption.
      do 2 eexists. split; [reflexivity|]. split.
      * apply round2_clamp_range.
      * apply round2_std_range.
    + rewrite predictRemoval_undefined_pollutant by assumption.
      do 2 eexists. split; [reflexivity|]. lra.
  - rewrite predictRemoval_undefined_material by assumption.
    do 2 eexists. split; [reflexivity|]. lra.
Qed.

Lemma registered_material (key : string) (m : Material) :
  get MODEL_PARAMS key = Own m ->
  m = MNCJG \/ m = MNC \/ m = NC \/ m = NCJG \/ m = MWM.
Proof.
  intros H. apply get_own_in in H. simpl in H.
  repeat (destruct H as [H|H]; [injection H as _ H; subst m; tauto|]).
  contradiction.
Qed.

(* every synergy bonus of the registry is a percentage with at most two
   decimals, which clamping and rounding leave as it is *)
Lemma synergy_fixed (key : string) (m : Material) :
  get MODEL_PARAMS key = Own m -> round2 (clamp (synergy m)) = synergy m.
Proof.
  intros H. apply registered_material in H.
  destruct H as [ -> | [ -> | [ -> | [ -> | -> ]]]]; simpl synergy;
    (rewrite clamp_id by lra);
    [ rewrite (round2_eq 500) | rewrite (round2_eq 0) | rewrite (round2_eq 0)
    | rewrite (round2_eq 300) | rewrite (round2_eq 0) ]; lra.
Qed.

Lemma rawRemoval_factors_le (m : Material) (p : Pollutant)
  (pH1 pH2 c1 c2 t : R) (comp1 comp2 : bool) :
  0 < base m -> 0 < optMul p -> 0 <= kinetic m t ->
  phEffect p pH1 <= phEffect p pH2 ->
  concEffect m p c1 <= concEffect m p c2 ->
  compPenalty comp1 <= compPenalty comp2 ->
  rawRemoval m p pH1 c1 t comp1 <= rawRemoval m p pH2 c2 t comp2.
Proof.
  intros Hb Ho Hk Hf Hg Hc. unfold rawRemoval.
  pose proof (phEffect_pos p pH1) as F1.
  pose proof (concEffect_pos m p c1) as G1.
  pose proof (compPenalty_pos comp1) as C1.
  apply Rplus_le_compat_r.
  assert (B : 0 <= base m * kinetic m t) by (apply Rmult_le_pos; lra).
  apply Rmult_le_compat; [|lra| |exact Hc].
  { repeat apply Rmult_le_pos; lra. }
  apply Rmult_le_compat_r; [lra|].
  apply Rmult_le_compat; [|lra| |exact Hg].
  { apply Rmult_le_pos; lra. }
  apply Rmult_le_compat_l; [exact B | exact Hf].
Qed.

Lemma mean_le_of_raw (adsorbent pollutant : string) (m : Material) (p : Pollutant)
  (pH1 pH2 c1 c2 t1 t2 : R) (comp1 comp2 : bool) :
  get MODEL_PARAMS adsorbent = Own m -> get POLLUTANT_MOD pollutant = Own p ->
  rawRemoval m p pH1 c1 t1 comp1 <= rawRemoval m p pH2 c2 t2 comp2 ->
  num_le (mean (predictRemoval adsorbent pollutant pH1 c1 t1 comp1))
         (mean (predictRemoval adsorbent pollutant pH2 c2 t2 comp2)).
Proof.
  intros Em Ep H. rewrite !(predictRemoval_own _ _ m p) by assumption. simpl.
  now apply round2_le, clamp_le.
Qed.

Lemma concEffect_decreasing (m : Material) (p : Pollutant) (c1 c2 : R) :
  0 < concDecay m -> c1 <= c2 -> concEffect m p c2 <= concEffect m p c1.
Proof.
  intros Hd Hc. unfold concEffect.
  destruct (Req_dec c1 c2) as [->|Hne]; [lra|].
  left. apply exp_increasing. nra.
Qed.

Lemma kinetic_le (m : Material) (t1 t2 : R) :
  0 < timeK m -> t1 <= t2 -> kinetic m t1 <= kinetic m t2.
Proof.
  intros Hk [Hlt| ->]; [|lra]. left. now apply kinetic_increasing.
Qed.

(** The deviation of a prediction for a registered material depends on the
    material, the pH and the contact time only (not on the contaminant, as
    long as its read is not undefined, nor on the concentration or the
    competition flag); it does not grow when the contact time grows and the
    pH moves no further from the optimum of the material. *)
Theorem std_of_material_pH_time (adsorbent : string) (m : Material)
  (q1 q2 : string) (c1 c2 : R) (comp1 comp2 : bool) (pH1 pH2 t1 t2 : R) :
  get MODEL_PARAMS adsorbent = Own m ->
  get POLLUTANT_MOD q1 <> Undefined -> get POLLUTANT_MOD q2 <> Undefined ->
  t1 <= t2 -> Rabs (pH2 - phOpt m) <= Rabs (pH1 - phOpt m) ->
  std (predictRemoval adsorbent q1 pH1 c1 t1 comp1)
  = std (predictRemoval adsorbent q2 pH1 c2 t1 comp2) /\
  num_le (std (predictRemoval adsorbent q2 pH2 c2 t2 comp2))
         (std (predictRemoval adsorbent q1 pH1 c1 t1 comp1)).
Proof.
  intros Em H1 H2 Ht HpH.
  assert (S : forall q c comp pH t, get POLLUTANT_MOD q <> Undefined ->
            std (predictRemoval adsorbent q pH c t comp) = Num (round2 (rawStd m pH t))).
  { intros q c comp pH t Hq.
    destruct (get POLLUTANT_MOD q) as [p| |] eqn:Eq; [| |contradiction].
    - now rewrite (predictRemoval_own _ _ m p).
    - now rewrite (predictRemoval_inherited_pollutant _ _ m). }
  rewrite !S by assumption. split; [reflexivity|]. simpl.
  apply round2_le. unfold rawStd.
  destruct (material_sound _ _ Em) as (_ & Hk & _ & _).
  pose proof (kinetic_le m t1 t2 Hk Ht). lra.
Qed.

Lemma std_of_material_pH_time_witness :
  std (predictRemoval "NC" "Cd(II)" 3 10 5 false)
  = std (predictRemoval "NC" "Nap" 3 50 5 true) /\
  num_le (std (predictRemoval "NC" "Nap" 5 50 20 true))
         (std (predictRemoval "NC" "Cd(II)" 3 10 5 false)).
Proof.
  apply (std_of_material_pH_time "NC" NC);
    [ reflexivity | intros H; discriminate H | intros H; discriminate H | lra | ].
  simpl phOpt. rewrite !Rabs_left by lra. lra.
Defined.

Lemma phEffect_neutral (p : Pollutant) (pH : R) :
  phDir p <> 1%Z -> phDir p <> (-1)%Z ->
  phEffect p pH = 0.85 + 0.15 * exp (-0.3 * (pH - 6) ^ 2).
Proof.
  intros H1 H2. unfold phEffect.
  destruct (Z.eqb_spec (phDir p) 1) as [E|_]; [contradiction|].
  destruct (Z.eqb_spec (phDir p) (-1)) as [E|_]; [contradiction|]. reflexivity.
Qed.

Lemma phEffect_neutral_peak (p : Pollutant) (pH : R) :
  phDir p <> 1%Z -> phDir p <> (-1)%Z -> phEffect p pH <= phEffect p 6.
Proof.
  intros H1 H2. rewrite !phEffect_neutral by assumption.
  replace (-0.3 * (6 - 6) ^ 2) with 0 by ring. rewrite exp_0.
  assert (H : exp (-0.3 * (pH - 6) ^ 2) <= 1).
  { rewrite <- exp_0. destruct (Req_dec (pH - 6) 0) as [E|E].
    - rewrite E. replace (-0.3 * 0 ^ 2) with 0 by ring. lra.
    - left. apply exp_increasing.
      assert (0 < (pH - 6) ^ 2) by nra. lra. }
  lra.
Qed.

(** ** The kinetic curve and the pH response *)

Lemma StronglySorted_map_seq {A : Type} (rel : A -> A -> Prop) (f : nat -> A) (len : nat) :
  forall s,
  (forall i j, (s <= i < j)%nat -> (j < s + len)%nat -> rel (f i) (f j)) ->
  StronglySorted rel (map f (seq s len)).
Proof.
  induction len as [|len IH]; intros s H; simpl; constructor.
  - apply IH. intros i j Hij Hj. apply H; lia.
  - apply Forall_forall. intros x Hx. apply in_map_iff in Hx.
    destruct Hx as (j & <- & Hj). apply in_seq in Hj. apply H; lia.
Qed.

Lemma StronglySorted_map {A B : Type} (rel : B -> B -> Prop) (f : A -> B) (l : list A) :
  StronglySorted (fun a b => rel (f a) (f b)) l -> StronglySorted rel (map f l).
Proof.
  induction 1 as [|a l Hl IH Ha]; simpl; constructor; [exact IH|].
  apply Forall_forall. intros x Hx. apply in_map_iff in Hx.
  destruct Hx as (b & <- & Hb). rewrite Forall_forall in Ha. now apply Ha.
Qed.

Lemma ph_grid_values :
  ph_grid = [2; 2.5; 3; 3.5; 4; 4.5; 5; 5.5; 6; 6.5; 7; 7.5; 8].
Proof.
  unfold ph_grid. simpl. repeat (apply f_equal2; [lra|]). reflexivity.
Qed.

Lemma phData_closed (fuel : nat) (ads : string) (conc time : R) :
  (14 <= fuel)%nat ->
  phData fuel ads conc time = Some (map (phRow ads conc time) ph_grid).
Proof.
  intros Hfuel. unfold phData.
  rewrite (for_upto_rounds 8 0.5 _ 13).
  - rewrite fold_push. reflexivity.
  - intros i Hi. assert (H : INR i <= INR 12) by (apply le_INR; lia).
    simpl in H. lra.
  - simpl. lra.
  - lia.
Qed.

Lemma column_phRow (ads : string) (conc time pH : R) (key : string) :
  In key pollutants ->
  column key (phRow ads conc time pH)
  = Some (mean (predictRemoval ads key pH conc time false)).
Proof.
  intros Hkey. unfold column, phRow. cbn [PhRow.columns]. rewrite fold_push.
  set (f := fun pl => mean (predictRemoval ads pl pH conc time false)).
  change (option_map snd
            (find (fun kv => String.eqb (fst kv) key)
               ([] ++ map (fun pl => (pl, f pl)) pollutants)%list) = Some (f key)).
  clearbody f.
  simpl in Hkey.
  repeat (destruct Hkey as [<-|Hkey]; [reflexivity|]). contradiction.
Qed.

Lemma registered_pollutant_key (key : string) (p : Pollutant) :
  get POLLUTANT_MOD key = Own p -> In key pollutants.
Proof.
  intros H. apply get_own_in in H. simpl in H. simpl.
  repeat (destruct H as [H|H]; [injection H as <- _; tauto|]). contradiction.
Qed.

(** The loop of the pH response ends: given 14 or more tests of its
    condition it returns 13 rows, for the pH values 2, 2.5, ..., 8 in this
    order, each with the columns Cd(II), Pb(II), As(III) and Nap. *)
Theorem phData_rows (fuel : nat) (ads : string) (conc time : R) :
  (14 <= fuel)%nat ->
  exists rows,
    phData fuel ads conc time = Some rows /\
    map PhRow.pH rows = [2; 2.5; 3; 3.5; 4; 4.5; 5; 5.5; 6; 6.5; 7; 7.5; 8] /\
    Forall (fun row => map fst (PhRow.columns row) = pollutants) rows.
Proof.
  intros Hfuel. eexists. split; [now apply phData_closed|]. split.
  - rewrite map_map. cbn [PhRow.pH phRow]. rewrite map_id. apply ph_grid_values.
  - apply Forall_forall. intros row Hrow. apply in_map_iff in Hrow.
    destruct Hrow as (x & <- & _). unfold phRow. cbn [PhRow.columns].
    rewrite fold_push. reflexivity.
Qed.

Lemma phData_rows_witness :
  exists rows,
    phData 14 "MNCJG" 10 30 = Some rows /\
    map PhRow.pH rows = [2; 2.5; 3; 3.5; 4; 4.5; 5; 5.5; 6; 6.5; 7; 7.5; 8] /\
    Forall (fun row => map fst (PhRow.columns row) = pollutants) rows.
Proof.
  apply phData_rows. lia.
Defined.

Lemma ph_grid_sorted : StronglySorted Rle ph_grid.
Proof.
  unfold ph_grid. apply StronglySorted_map_seq. intros i j Hij _.
  assert (H : INR i <= INR j) by (apply le_INR; lia). lra.
Qed.

(** ** The convergence line *)

Lemma mapi_from_nth {A B : Type} (f : A -> nat -> B) (l : list A) :
  forall s i, nth_error (mapi_from f s l) i
              = option_map (fun x => f x (s + i)%nat) (nth_error l i).
Proof.
  induction l as [|x l IH]; intros s [|i]; simpl; try reflexivity.
  - now rewrite Nat.add_0_r.
  - rewrite IH. now replace (S s + i)%nat with (s + S i)%nat by lia.
Qed.

Lemma mapi_from_entries {A B : Type} (f : A -> nat -> B) (g : B -> A) (l : list A) :
  (forall x i, g (f x i) = x) -> forall s, map g (mapi_from f s l) = l.
Proof.
  intros H. induction l as [|x l IH]; intros s; simpl; [reflexivity|].
  now rewrite H, IH.
Qed.

(* the largest of a number and the numbers of a list *)
Lemma fold_Rmax_spec (rs : list R) : forall a,
  a <= fold_left Rmax rs a /\
  (forall r, In r rs -> r <= fold_left Rmax rs a) /\
  (fold_left Rmax rs a = a \/ In (fold_left Rmax rs a) rs).
Proof.
  induction rs as [|x rs IH]; intros a; simpl.
  - split; [lra|]. split; [contradiction | now left].
  - destruct (IH (Rmax a x)) as (H1 & H2 & H3).
    pose proof (Rmax_l a x). pose proof (Rmax_r a x).
    split; [lra|]. split.
    + intros r [<-|Hr]; [lra | now apply H2].
    + destruct H3 as [H3|H3]; [|tauto].
      rewrite H3. unfold Rmax. destruct (Rle_dec a x); tauto.
Qed.

Lemma Math_max_of_numbers (r : R) (rs : list R) :
  Math_max_of (map Num (r :: rs)) = Ext (Num (fold_left Rmax rs r)).
Proof.
  unfold Math_max_of. simpl. generalize r. clear r.
  induction rs as [|x rs IH]; intros r; simpl; [reflexivity|]. apply IH.
Qed.

(* [Math.max] of a list with a NaN is NaN *)
Lemma Math_max_of_nan (l : list num) : In NaN l -> Math_max_of l = Ext NaN.
Proof.
  unfold Math_max_of.
  assert (K : forall l, fold_left (fun acc x => match acc with
                          | MinusInfinity => Ext x
                          | Ext a => Ext (Math_max a x)
                          end) l (Ext NaN) = Ext NaN).
  { clear l. induction l as [|x l IH]; simpl; [reflexivity | exact IH]. }
  assert (G : forall l acc, In NaN l ->
              fold_left (fun acc x => match acc with
                          | MinusInfinity => Ext x
                          | Ext a => Ext (Math_max a x)
                          end) l acc = Ext NaN).
  { clear l. induction l as [|x l IH]; intros acc H; simpl in *; [contradiction|].
    destruct H as [->|H].
    - destruct acc as [|[a|]]; simpl; apply K.
    - now apply IH. }
  apply G.
Qed.

Lemma numbers_of (history : list Sample.t) :
  Forall (fun e => exists r, Sample.predicted e = Num r) history ->
  exists rs, map Sample.predicted history = map Num rs.
Proof.
  induction 1 as [|e l [r Hr] _ [rs IH]].
  - now exists [].
  - exists (r :: rs). simpl. now rewrite Hr, IH.
Qed.

Lemma nth_error_map_Num (history : list Sample.t) (rs : list R) (j : nat) (b : R) :
  map Sample.predicted history = map Num rs ->
  nth_error rs j = Some b ->
  exists e, nth_error history j = Some e /\ Sample.predicted e = Num b.
Proof.
  intros E Hj.
  assert (H : nth_error (map Sample.predicted history) j = Some (Num b))
    by (rewrite E; now apply map_nth_error).
  rewrite nth_error_map in H.
  destruct (nth_error history j) as [e|]; [|discriminate].
  exists e. split; [reflexivity|]. now injection H.
Qed.

Lemma In_firstn_nth {A : Type} (x : A) (l : list A) : forall n,
  In x (firstn n l) -> exists j, (j < n)%nat /\ nth_error l j = Some x.
Proof.
  induction l as [|y l IH]; intros [|n] H; simpl in H; try contradiction.
  destruct H as [->|H].
  - exists 0%nat. split; [lia | reflexivity].
  - destruct (IH n H) as (j & Hj & E). exists (S j). split; [lia | exact E].
Qed.

Lemma nth_firstn_In {A : Type} (x : A) (l : list A) : forall n j,
  (j < n)%nat -> nth_error l j = Some x -> In x (firstn n l).
Proof.
  induction l as [|y l IH]; intros [|n] [|j] Hj E; simpl in *;
    try discriminate; try lia.
  - injection E as ->. now left.
  - right. apply (IH n j); [lia | exact E].
Qed.

(* the running maximum after entry [i] of a history of numbers *)
Lemma running_maximum (history : list Sample.t) (i : nat) (h : Sample.t) :
  Forall (fun e => exists r, Sample.predicted e = Num r) history ->
  nth_error history i = Some h ->
  exists b,
    Math_max_of (map Sample.predicted (firstn (i + 1) history)) = Ext (Num b) /\
    (forall j e r, (j <= i)%nat -> nth_error history j = Some e ->
                   Sample.predicted e = Num r -> r <= b) /\
    (exists j e, (j <= i)%nat /\ nth_error history j = Some e /\
                 Sample.predicted e = Num b).
Proof.
  intros Hnum Hi. destruct (numbers_of history Hnum) as [rs E].
  rewrite <- firstn_map, E, firstn_map.
  assert (Hlen : List.length rs = List.length history)
    by (rewrite <- (length_map Num), <- E; apply length_map).
  assert (Hi' : (i < List.length rs)%nat)
    by (rewrite Hlen; apply nth_error_Some; congruence).
  destruct rs as [|r rs]; [simpl in Hi'; lia|].
  replace (i + 1)%nat with (S i) by lia. cbn [firstn].
  rewrite Math_max_of_numbers.
  destruct (fold_Rmax_spec (firstn i rs) r) as (H1 & H2 & H3).
  eexists. split; [reflexivity|]. split.
  - intros j e x Hj He Hx.
    assert (Hin : In x (firstn (S i) (r :: rs))).
    { apply (nth_firstn_In x (r :: rs) (S i) j); [lia|].
      assert (H : nth_error (map Num (r :: rs)) j = Some (Num x)).
      { rewrite <- E, nth_error_map, He. simpl. now rewrite Hx. }
      rewrite nth_error_map in H.
      destruct (nth_error (r :: rs) j) as [y|]; [|discriminate].
      simpl in H. injection H as ->. reflexivity. }
    cbn [firstn] in Hin. destruct Hin as [<-|Hin]; [exact H1 | now apply H2].
  - assert (Hin : In (fold_left Rmax (firstn i rs) r) (firstn (S i) (r :: rs))).
    { cbn [firstn]. destruct H3 as [->|H3]; [now left | now right]. }
    apply In_firstn_nth in Hin. destruct Hin as (j & Hj & Ej).
    destruct (nth_error_map_Num history (r :: rs) j _ E Ej) as (e & He & Hp).
    exists j, e. split; [lia|]. split; assumption.
Qed.

(** The convergence line has one point per entry of the history, in the
    order of the history.  When every entry has a number as its predicted
    removal, the value [bestSoFar] of point [i] is a number: it is the
    predicted removal of an entry up to [i], and no entry up to [i] has a
    larger one (so the line never falls). *)
Theorem convergence_running_maximum (history : list Sample.t) :
  Forall (fun e => exists r, Sample.predicted e = Num r) history ->
  map ConvergencePoint.entry (convergence history) = history /\
  forall i pt, nth_error (convergence history) i = Some pt ->
    exists b,
      ConvergencePoint.bestSoFar pt = Ext (Num b) /\
      (forall j e r, (j <= i)%nat -> nth_error history j = Some e ->
                     Sample.predicted e = Num r -> r <= b) /\
      (exists j e, (j <= i)%nat /\ nth_error history j = Some e /\
                   Sample.predicted e = Num b).
Proof.
  intros Hnum. unfold convergence. split.
  - now apply mapi_from_entries.
  - intros i pt Hpt. rewrite mapi_from_nth in Hpt.
    destruct (nth_error history i) as [h|] eqn:Hi; [|discriminate].
    simpl in Hpt. injection Hpt as <-. cbn [ConvergencePoint.bestSoFar].
    now apply (running_maximum history i h).
Qed.

Lemma convergence_running_maximum_witness :
  let history :=
    [ {| Sample.iteration := 1; Sample.pH := 6.08; Sample.time := 0;
         Sample.concentration := 10; Sample.predicted := Num 5;
         Sample.std := Num 5.04; Sample.score := Num 4.5 |};
      {| Sample.iteration := 2; Sample.pH := 6.02; Sample.time := 12;
         Sample.concentration := 10; Sample.predicted := Num 80;
         Sample.std := Num 2.5; Sample.score := Num 79.75 |} ] in
  map ConvergencePoint.entry (convergence history) = history /\
  forall i pt, nth_error (convergence history) i = Some pt ->
    exists b,
      ConvergencePoint.bestSoFar pt = Ext (Num b) /\
      (forall j e r, (j <= i)%nat -> nth_error history j = Some e ->
                     Sample.predicted e = Num r -> r <= b) /\
      (exists j e, (j <= i)%nat /\ nth_error history j = Some e /\
                   Sample.predicted e = Num b).
Proof.
  intros history. apply convergence_running_maximum.
  repeat constructor; eexists; reflexivity.
Defined.

(** A NaN in the history is never left behind: from the first entry whose
    predicted removal is NaN on, every point of the convergence line has
    NaN as its [bestSoFar]. *)
Theorem convergence_nan_persists (history : list Sample.t) (k : nat) (e : Sample.t) :
  nth_error history k = Some e -> Sample.predicted e = NaN ->
  forall i pt, (k <= i)%nat -> nth_error (convergence history) i = Some pt ->
    ConvergencePoint.bestSoFar pt = Ext NaN.
Proof.
  intros Hk He i pt Hi Hpt. unfold convergence in Hpt. rewrite mapi_from_nth in Hpt.
  destruct (nth_error history i) as [h|]; [|discriminate].
  simpl in Hpt. injection Hpt as <-. cbn [ConvergencePoint.bestSoFar].
  apply Math_max_of_nan. rewrite <- He. apply in_map.
  apply (nth_firstn_In e history (i + 1) k); [lia | exact Hk].
Qed.

Lemma convergence_nan_persists_witness :
  let history :=
    map (fun x => {| Sample.iteration := 1; Sample.pH := 6; Sample.time := 15;
                     Sample.concentration := 10; Sample.predicted := x;
                     Sample.std := x; Sample.score := x |}) [Num 50; NaN; Num 90] in
  exists pt, nth_error (convergence history) 2 = Some pt /\
             ConvergencePoint.bestSoFar pt = Ext NaN.
Proof.
  intros history. eexists. split; [reflexivity|].
  apply (convergence_nan_persists history 1
           {| Sample.iteration := 1; Sample.pH := 6; Sample.time := 15;
              Sample.concentration := 10; Sample.predicted := NaN;
              Sample.std := NaN; Sample.score := NaN |} eq_refl eq_refl 2);
    [lia | reflexivity].
Defined.

(** ** Further properties of [bayesianOptimize] *)

Section Draws.

Variables random1 random2 : nat -> R.
Variables pollutant adsorbent : string.
Variable targetRemoval : R.
Variables phRange timeRange concRange : R * R.



End Draws.


Lemma draw_in_range (lo hi r : R) :
  lo <= hi -> 0 <= r < 1 -> lo <= lo + r * (hi - lo) <= hi.
Proof. intros H Hr. nra. Qed.

(** ** Further properties of [computeSHAP] *)

Lemma toFixedR_0 (d : nat) : toFixedR d 0 = 0.
Proof.
  pose proof (pow10_pos 21). pose proof (pow10_pos d).
  rewrite (toFixedR_nonneg d 0 0) by lra. unfold Rdiv. lra.
Qed.

Lemma toFixedR_abs (d : nat) (x : R) : toFixedR d (Rabs x) = Rabs (toFixedR d x).
Proof.
  pose proof (pow10_pos 21) as H21. pose proof (pow10_pos d) as Hd.
  unfold toFixedR at 2.
  destruct (Rle_dec (10 ^ 21) (Rabs x)) as [Hbig|Hsmall].
  - unfold toFixedR. rewrite Rabs_Rabsolu.
    destruct (Rle_dec (10 ^ 21) (Rabs x)); [reflexivity | contradiction].
  - destruct (Rle_dec 0 x) as [Hp|Hn].
    + rewrite (Rabs_pos_eq x) in * by assumption.
      unfold toFixedR. rewrite (Rabs_pos_eq x) by assumption.
      destruct (Rle_dec (10 ^ 21) x); [contradiction|].
      destruct (Rle_dec 0 x); [|contradiction].
      symmetry. apply Rabs_pos_eq. apply (rounded_magnitude_bound d x). lra.
    + rewrite (Rabs_left x) in * by lra.
      unfold toFixedR. rewrite (Rabs_pos_eq (- x)) by lra.
      destruct (Rle_dec (10 ^ 21) (- x)); [contradiction|].
      destruct (Rle_dec 0 (- x)); [|lra].
      rewrite Rabs_Ropp. symmetry. apply Rabs_pos_eq.
      apply (rounded_magnitude_bound d (- x)). lra.
Qed.

Lemma toFixed_abs (d : nat) (x : num) : toFixed d (Math_abs x) = Math_abs (toFixed d x).
Proof. destruct x as [a|]; simpl; [now rewrite toFixedR_abs | reflexivity]. Qed.

Lemma toFixedR_2_100 : toFixedR 2 100 = 100 /\ toFixedR 2 (-100) = -100.
Proof.
  split.
  - rewrite (toFixedR_nonneg 2 100 10000) by lra. lra.
  - rewrite (toFixedR_neg 2 (-100) 10000) by lra. lra.
Qed.

Lemma toFixedR_2_competition : toFixedR 2 (-3.2) = -3.2 /\ toFixedR 2 (Rabs (-3.2)) = 3.2.
Proof.
  split.
  - rewrite (toFixedR_neg 2 (-3.2) 320) by lra. lra.
  - rewrite Rabs_left by lra. rewrite (toFixedR_nonneg 2 (- -3.2) 320) by lra. lra.
Qed.

(* the items of [computeSHAP] before they are sorted *)
Lemma computeSHAP_items (adsorbent pollutant : string) (pH concentration time : R)
  (P : Feature -> Prop) :
  Forall P (map (fun f => {| name := fst f; value := toFixed 2 (snd f);
                             absValue := toFixed 2 (Math_abs (snd f)) |})
              (features adsorbent pollutant pH concentration time)) ->
  Forall P (computeSHAP adsorbent pollutant pH concentration time).
Proof.
  intros H. unfold computeSHAP.
  apply (Permutation_Forall (Permutation_sym (Array_sort_perm _ _))). exact H.
Qed.

Lemma computeSHAP_item (adsorbent pollutant : string) (pH concentration time : R)
  (f : Feature) :
  In f (map (fun f => {| name := fst f; value := toFixed 2 (snd f);
                         absValue := toFixed 2 (Math_abs (snd f)) |})
          (features adsorbent pollutant pH concentration time)) ->
  In f (computeSHAP adsorbent pollutant pH concentration time).
Proof.
  intros H. unfold computeSHAP.
  apply (Permutation_in _ (Permutation_sym (Array_sort_perm _ _))). exact H.
Qed.

(** For all inputs, the names of the items of the result are the six
    factors, each once; the absolute value reported with an item is the
    absolute value of its reported value; and the Competition item is the
    constant -3.2, whatever the inputs. *)
Theorem computeSHAP_items_consistent (adsorbent pollutant : string)
  (pH concentration time : R) :
  let result := computeSHAP adsorbent pollutant pH concentration time in
  Permutation (map name result) declared /\
  Forall (fun f => absValue f = Math_abs (value f)) result /\
  In {| name := "Competition"; value := Num (-3.2); absValue := Num 3.2 |} result.
Proof.
  intros result. subst result. split; [|split].
  - unfold computeSHAP.
    apply (Permutation_trans (Permutation_map name (Array_sort_perm _ _))).
    unfold features. cbn [map fst snd name]. apply Permutation_refl.
  - apply computeSHAP_items. apply Forall_forall. intros f Hf.
    apply in_map_iff in Hf. destruct Hf as (x & <- & _).
    cbn [value absValue]. apply toFixed_abs.
  - apply computeSHAP_item. unfold features. cbn [map fst snd].
    do 5 right. left. cbn [toFixed lift1 Math_abs].
    destruct toFixedR_2_competition as [-> ->]. reflexivity.
Qed.

Lemma zero_item (n : string) (x : num) (r : R) :
  x = Num r ->
  {| name := n; value := toFixed 2 (x - x)%js;
     absValue := toFixed 2 (Math_abs (x - x)%js) |}
  = {| name := n; value := Num 0; absValue := Num 0 |}.
Proof.
  intros ->. cbn [sub lift2 lift1 toFixed Math_abs].
  replace (r - r) with 0 by lra. rewrite Rabs_R0, toFixedR_0. reflexivity.
Qed.

(** An input at its reference value contributes nothing: for identifiers
    neither of which is a member of Object.prototype, the Contact Time item
    is 0 at contact time 15, the Initial pH item is 0 at pH 6, the
    Concentration item is 0 at concentration 10, the Adsorbent Type item is
    0 for the material NC and the Pollutant Type item is 0 for the
    contaminant Cd(II). *)
Theorem computeSHAP_reference_inputs (adsorbent pollutant : string)
  (pH concentration time : R) :
  ~ inherited MODEL_PARAMS adsorbent -> ~ inherited POLLUTANT_MOD pollutant ->
  In {| name := "Contact Time"; value := Num 0; absValue := Num 0 |}
     (computeSHAP adsorbent pollutant pH concentration 15) /\
  In {| name := "Initial pH"; value := Num 0; absValue := Num 0 |}
     (computeSHAP adsorbent pollutant 6 concentration time) /\
  In {| name := "Concentration"; value := Num 0; absValue := Num 0 |}
     (computeSHAP adsorbent pollutant pH 10 time) /\
  In {| name := "Adsorbent Type"; value := Num 0; absValue := Num 0 |}
     (computeSHAP "NC" pollutant pH concentration time) /\
  In {| name := "Pollutant Type"; value := Num 0; absValue := Num 0 |}
     (computeSHAP adsorbent "Cd(II)" pH concentration time).
Proof.
  intros Hm Hp.
  assert (HNC : ~ inherited MODEL_PARAMS "NC") by (intros H; discriminate H).
  assert (HCd : ~ inherited POLLUTANT_MOD "Cd(II)") by (intros H; discriminate H).
  destruct (mean_numeric adsorbent pollutant 6 10 15 false Hm Hp) as [b Eb].
  destruct (mean_numeric "NC" pollutant 6 10 15 false HNC Hp) as [b1 Eb1].
  destruct (mean_numeric adsorbent "Cd(II)" 6 10 15 false Hm HCd) as [b2 Eb2].
  repeat split; apply computeSHAP_item; unfold features; cbn [map fst snd].
  - left. now apply (zero_item _ _ b).
  - right. left. now apply (zero_item _ _ b).
  - do 2 right. left. now apply (zero_item _ _ b).
  - do 3 right. left. now apply (zero_item _ _ b1).
  - do 4 right. left. now apply (zero_item _ _ b2).
Qed.

Lemma computeSHAP_reference_inputs_witness :
  In {| name := "Contact Time"; value := Num 0; absValue := Num 0 |}
     (computeSHAP "MNCJG" "Pb(II)" 4 20 15) /\
  In {| name := "Initial pH"; value := Num 0; absValue := Num 0 |}
     (computeSHAP "MNCJG" "Pb(II)" 6 20 30) /\
  In {| name := "Concentration"; value := Num 0; absValue := Num 0 |}
     (computeSHAP "MNCJG" "Pb(II)" 4 10 30) /\
  In {| name := "Adsorbent Type"; value := Num 0; absValue := Num 0 |}
     (computeSHAP "NC" "Pb(II)" 4 20 30) /\
  In {| name := "Pollutant Type"; value := Num 0; absValue := Num 0 |}
     (computeSHAP "MNCJG" "Cd(II)" 4 20 30).
Proof.
  apply (computeSHAP_reference_inputs "MNCJG" "Pb(II)" 4 20 30); intros H; discriminate H.
Defined.

Lemma diff_nonneg (x y : num) :
  num_le y x -> num_le (Num 0) (toFixed 2 (x - y)%js).
Proof.
  destruct x as [a|], y as [b|]; simpl; try contradiction. intros H.
  pose proof (toFixedR_le 2 0 (a - b) ltac:(lra)) as L.
  rewrite toFixedR_0 in L. exact L.
Qed.

Lemma diff_nonpos (x y : num) :
  num_le x y -> num_le (toFixed 2 (x - y)%js) (Num 0).
Proof.
  destruct x as [a|], y as [b|]; simpl; try contradiction. intros H.
  pose proof (toFixedR_le 2 (a - b) 0 ltac:(lra)) as L.
  rewrite toFixedR_0 in L. exact L.
Qed.

(** The sign of an item follows the direction in which the model moves:
    for a registered material and a registered contaminant, the Contact Time
    item is 0 or more when the contact time is 15 or more and 0 or less when
    it is 15 or less; the Concentration item is 0 or less when the
    concentration is 10 or more and 0 or more when it is 10 or less; the
    Initial pH item has the sign of [pH - 6] for a contaminant of direction
    1, the opposite sign for direction -1, and is 0 or less for any other
    direction. *)
Theorem computeSHAP_signs (adsorbent pollutant : string) (m : Material) (p : Pollutant)
  (pH concentration time : R) :
  get MODEL_PARAMS adsorbent = Own m -> get POLLUTANT_MOD pollutant = Own p ->
  Forall (fun f =>
    (name f = "Contact Time" ->
       (15 <= time -> num_le (Num 0) (value f)) /\
       (time <= 15 -> num_le (value f) (Num 0))) /\
    (name f = "Concentration" ->
       (concentration <= 10 -> num_le (Num 0) (value f)) /\
       (10 <= concentration -> num_le (value f) (Num 0))) /\
    (name f = "Initial pH" ->
       (phDir p = 1%Z ->
          (6 <= pH -> num_le (Num 0) (value f)) /\ (pH <= 6 -> num_le (value f) (Num 0))) /\
       (phDir p = (-1)%Z ->
          (pH <= 6 -> num_le (Num 0) (value f)) /\ (6 <= pH -> num_le (value f) (Num 0))) /\
       (phDir p <> 1%Z -> phDir p <> (-1)%Z -> num_le (value f) (Num 0))))
    (computeSHAP adsorbent pollutant pH concentration time).
Proof.
  intros Em Ep.
  destruct (material_sound _ _ Em) as (Hb & Hk & Hd & _).
  pose proof (pollutant_sound _ _ Ep) as Ho.
  assert (K15 : 0 <= kinetic m 15) by (apply kinetic_nonneg; lra).
  assert (T : forall t1 t2, t1 <= t2 ->
            num_le (mean (predictRemoval adsorbent pollutant 6 10 t1 false))
                   (mean (predictRemoval adsorbent pollutant 6 10 t2 false))).
  { intros t1 t2 H. apply (mean_le_of_raw _ _ m p); try assumption.
    apply rawRemoval_time_le; try assumption. now apply kinetic_le. }
  assert (C : forall c1 c2, c1 <= c2 ->
            num_le (mean (predictRemoval adsorbent pollutant 6 c2 15 false))
                   (mean (predictRemoval adsorbent pollutant 6 c1 15 false))).
  { intros c1 c2 H. apply (mean_le_of_raw _ _ m p); try assumption.
    apply rawRemoval_factors_le; try assumption; try lra.
    now apply concEffect_decreasing. }
  assert (F : forall x y, phEffect p x <= phEffect p y ->
            num_le (mean (predictRemoval adsorbent pollutant x 10 15 false))
                   (mean (predictRemoval adsorbent pollutant y 10 15 false))).
  { intros x y H. apply (mean_le_of_raw _ _ m p); try assumption.
    apply rawRemoval_pH_le; assumption. }
  apply computeSHAP_items. unfold features. cbn [map fst snd].
  repeat (apply Forall_cons;
          [ cbn [name value]; split; [|split]; intros Hname; try discriminate Hname | ]);
    [ | | | apply Forall_nil ].
  - split; intros H; [apply diff_nonneg | apply diff_nonpos]; now apply T.
  - split; [|split].
    + intros Hdir. split; intros H; [apply diff_nonneg | apply diff_nonpos];
        apply F; now apply phEffect_high_increasing.
    + intros Hdir. split; intros H; [apply diff_nonneg | apply diff_nonpos];
        apply F; now apply phEffect_low_decreasing.
    + intros H1 H2. apply diff_nonpos, F. now apply phEffect_neutral_peak.
  - split; intros H; [apply diff_nonneg | apply diff_nonpos]; now apply C.
Qed.

Lemma computeSHAP_signs_witness :
  Forall (fun f =>
    (name f = "Contact Time" ->
       (15 <= 30 -> num_le (Num 0) (value f)) /\
       (30 <= 15 -> num_le (value f) (Num 0))) /\
    (name f = "Concentration" ->
       (20 <= 10 -> num_le (Num 0) (value f)) /\
       (10 <= 20 -> num_le (value f) (Num 0))) /\
    (name f = "Initial pH" ->
       (phDir Cd_II = 1%Z ->
          (6 <= 7 -> num_le (Num 0) (value f)) /\ (7 <= 6 -> num_le (value f) (Num 0))) /\
       (phDir Cd_II = (-1)%Z ->
          (7 <= 6 -> num_le (Num 0) (value f)) /\ (6 <= 7 -> num_le (value f) (Num 0))) /\
       (phDir Cd_II <> 1%Z -> phDir Cd_II <> (-1)%Z -> num_le (value f) (Num 0))))
    (computeSHAP "MNCJG" "Cd(II)" 7 20 30).
Proof.
  apply (computeSHAP_signs "MNCJG" "Cd(II)" MNCJG Cd_II); reflexivity.
Defined.

(** For identifiers neither of which is a member of Object.prototype no
    item is larger than the scale of the model: every value lies in
    [-100, 100] and every absolute value in [0, 100]. *)
Theorem computeSHAP_bounded (adsorbent pollutant : string) (pH concentration time : R) :
  ~ inherited MODEL_PARAMS adsorbent -> ~ inherited POLLUTANT_MOD pollutant ->
  Forall (fun f => within (-100) 100 (value f) /\ within 0 100 (absValue f))
    (computeSHAP adsorbent pollutant pH concentration time).
Proof.
  intros Hm Hp.
  assert (HNC : ~ inherited MODEL_PARAMS "NC") by (intros H; discriminate H).
  assert (HCd : ~ inherited POLLUTANT_MOD "Cd(II)") by (intros H; discriminate H).
  assert (D : forall x y : num, within 0 100 x -> within 0 100 y ->
              within (-100) 100 (toFixed 2 (x - y)%js) /\
              within 0 100 (toFixed 2 (Math_abs (x - y)%js))).
  { intros [a|] [b|]; simpl; try tauto. intros Ha Hb.
    destruct toFixedR_2_100 as [E1 E2]. pose proof (toFixedR_0 2) as E0.
    assert (A : 0 <= Rabs (a - b) <= 100).
    { unfold Rabs. destruct (Rcase_abs (a - b)); lra. }
    pose proof (toFixedR_le 2 (-100) (a - b) ltac:(lra)) as L1.
    pose proof (toFixedR_le 2 (a - b) 100 ltac:(lra)) as L2.
    pose proof (toFixedR_le 2 0 (Rabs (a - b)) ltac:(lra)) as L3.
    pose proof (toFixedR_le 2 (Rabs (a - b)) 100 ltac:(lra)) as L4.
    rewrite ?E0, ?E1, ?E2 in L1, L2, L3, L4. lra. }
  assert (M : forall a q x c t, ~ inherited MODEL_PARAMS a -> ~ inherited POLLUTANT_MOD q ->
              within 0 100 (mean (predictRemoval a q x c t false))).
  { intros a q x c t Ha Hq.
    destruct (prediction_bounds a q x c t false Ha Hq) as (r & s & -> & Hr & _).
    exact Hr. }
  apply computeSHAP_items. unfold features. cbn [map fst snd].
  repeat (apply Forall_cons;
          [ cbn [name value absValue]; try (apply D; now apply M) | ]);
    [ | apply Forall_nil ].
  cbn [toFixed lift1 Math_abs within].
  destruct toFixedR_2_competition as [-> ->]. lra.
Qed.

Lemma computeSHAP_bounded_witness :
  Forall (fun f => within (-100) 100 (value f) /\ within 0 100 (absValue f))
    (computeSHAP "MWM" "Nap" 3 80 5).
Proof.
  apply computeSHAP_bounded; intros H; discriminate H.
Defined.

(** ** The heat map *)

Lemma or_zero_num (r : R) : or_zero (Some (Num r)) = Num r.
Proof.
  unfold or_zero. destruct (Req_dec_T r 0) as [->|_]; reflexivity.
Qed.

Lemma listed_adsorbent (a : string) :
  In a adsorbents -> exists m, get MODEL_PARAMS a = Own m.
Proof.
  simpl. intros H.
  repeat (destruct H as [<-|H]; [eexists; reflexivity|]). contradiction.
Qed.

Lemma listed_pollutant (p : string) :
  In p pollutants -> exists q, get POLLUTANT_MOD p = Own q.
Proof.
  simpl. intros H.
  repeat (destruct H as [<-|H]; [eexists; reflexivity|]). contradiction.
Qed.

Lemma heatmapData_cells (d : HeatCell.t) :
  In d heatmapData <->
  exists a p, In a adsorbents /\ In p pollutants /\
    d = {| HeatCell.adsorbent := a; HeatCell.pollutant := p;
           HeatCell.removal :=
             mean (predictRemoval a p 6 (if String.eqb p "Nap" then 50 else 5) 30 false) |}.
Proof.
  unfold heatmapData. rewrite in_flat_map. split.
  - intros (a & Ha & Hd). apply in_map_iff in Hd. destruct Hd as (p & <- & Hp).
    now exists a, p.
  - intros (a & p & Ha & Hp & ->). exists a. split; [exact Ha|].
    apply in_map_iff. now exists p.
Qed.

Lemma heatmapData_find (a p : string) :
  find (fun d => String.eqb (HeatCell.adsorbent d) a
                 && String.eqb (HeatCell.pollutant d) p) heatmapData
  = if in_dec string_dec a adsorbents then
      if in_dec string_dec p pollutants then
        Some {| HeatCell.adsorbent := a; HeatCell.pollutant := p;
                HeatCell.removal :=
                  mean (predictRemoval a p 6 (if String.eqb p "Nap" then 50 else 5)
                          30 false) |}
      else None
    else None.
Proof.
  destruct (find _ heatmapData) as [d|] eqn:E.
  - apply find_some in E. destruct E as [Hin Ht].
    apply heatmapData_cells in Hin. destruct Hin as (a' & p' & Ha & Hp & ->).
    cbn in Ht. apply andb_true_iff in Ht. destruct Ht as [E1 E2].
    apply String.eqb_eq in E1. apply String.eqb_eq in E2. subst a' p'.
    destruct (in_dec string_dec a adsorbents); [|contradiction].
    destruct (in_dec string_dec p pollutants); [|contradiction]. reflexivity.
  - destruct (in_dec string_dec a adsorbents) as [Ha|]; [|reflexivity].
    destruct (in_dec string_dec p pollutants) as [Hp|]; [|reflexivity].
    pose proof (find_none _ _ E
      {| HeatCell.adsorbent := a; HeatCell.pollutant := p;
         HeatCell.removal :=
           mean (predictRemoval a p 6 (if String.eqb p "Nap" then 50 else 5) 30 false) |})
      as H.
    cbn in H. rewrite !String.eqb_refl in H.
    discriminate H. apply heatmapData_cells. now exists a, p.
Qed.

(** The value shown in a cell of the heat map.  For a material and a
    contaminant of the lists of the panel the lookup finds the cell of the
    pair, and the value is the mean predicted for it at pH 6 and contact
    time 30 (at concentration 50 for Nap, 5 otherwise); for any other pair
    the value is 0; in all cases it is a number in [0, 100]. *)
Theorem heat_value_lookup (a p : string) :
  (In a adsorbents -> In p pollutants ->
   heat_value a p
   = mean (predictRemoval a p 6 (if String.eqb p "Nap" then 50 else 5) 30 false)) /\
  (~ (In a adsorbents /\ In p pollutants) -> heat_value a p = Num 0) /\
  within 0 100 (heat_value a p).
Proof.
  assert (V : In a adsorbents -> In p pollutants ->
              exists r, 0 <= r <= 100 /\
                mean (predictRemoval a p 6 (if String.eqb p "Nap" then 50 else 5) 30 false)
                = Num r).
  { intros Ha Hp. destruct (listed_adsorbent a Ha) as [m Em].
    destruct (listed_pollutant p Hp) as [q Eq].
    destruct (prediction_bounds a p 6 (if String.eqb p "Nap" then 50 else 5) 30 false)
      as (r & s & E & Hr & _).
    - unfold inherited. congruence.
    - unfold inherited. congruence.
    - exists r. rewrite E. now split. }
  unfold heat_value. rewrite heatmapData_find.
  destruct (in_dec string_dec a adsorbents) as [Ha|Ha];
    [destruct (in_dec string_dec p pollutants) as [Hp|Hp]|]; cbn [option_map].
  - destruct (V Ha Hp) as (r & Hr & E). cbn [HeatCell.removal]. rewrite E, or_zero_num.
    split; [reflexivity|]. split; [intros H; exfalso; tauto | exact Hr].
  - cbn [or_zero]. split; [intros _ H; contradiction|].
    split; [reflexivity | simpl; lra].
  - cbn [or_zero]. split; [intros H; contradiction|].
    split; [reflexivity | simpl; lra].
Qed.

Lemma length_append (s1 s2 : string) :
  String.length (s1 ++ s2) = (String.length s1 + String.length s2)%nat.
Proof. induction s1 as [|c s1 IH]; simpl; [reflexivity | now rewrite IH]. Qed.

Lemma toString16_two_digits (z : Z) :
  (16 <= z <= 255)%Z -> String.length (toString16_Z z) = 2%nat.
Proof.
  intros Hz.
  assert (A : forallb (fun n => (String.length (toString16_Z (Z.of_nat n)) =? 2)%nat)
                (seq 16 240) = true) by (vm_compute; reflexivity).
  rewrite forallb_forall in A.
  specialize (A (Z.to_nat z)). rewrite Z2Nat.id in A by lia.
  apply Nat.eqb_eq, A, in_seq. lia.
Qed.

Lemma Math_round_Z_range (lo hi : Z) (x : R) :
  IZR lo <= x <= IZR hi -> (lo <= Math_round_Z x <= hi)%Z.
Proof.
  intros [H1 H2]. unfold Math_round_Z.
  pose proof (Zfloor_bound (x + 1 / 2)) as [B1 B2]. split.
  - apply Zfloor_lub. lra.
  - assert (H : IZR (Zfloor (x + 1 / 2)) < IZR (hi + 1)) by (rewrite plus_IZR; lra).
    apply lt_IZR in H. lia.
Qed.

(** The background of a cell whose value is a number in [0, 100] is a
    colour of nine characters: the accent colour up to 50, the warning
    colour above 50, the secondary colour above 70, the primary colour above
    90, followed by an opacity between 20 and 80 written with two
    hexadecimal digits. *)
Theorem heat_bg_colour (v : R) :
  0 <= v <= 100 ->
  exists c z,
    heat_bg (Num v) = c ++ toString16_Z z /\
    c = (if Rlt_dec 90 v then COLORS_primary
         else if Rlt_dec 70 v then COLORS_secondary
         else if Rlt_dec 50 v then COLORS_warning else COLORS_accent) /\
    (20 <= z <= 80)%Z /\
    String.length (toString16_Z z) = 2%nat /\
    String.length (heat_bg (Num v)) = 9%nat.
Proof.
  intros Hv. unfold heat_bg. cbn [gt div mul add lift2 round_toString16].
  destruct (Rlt_dec 90 v); [|destruct (Rlt_dec 70 v); [|destruct (Rlt_dec 50 v)]].
  all: eexists; eexists; split; [reflexivity|]; split; [reflexivity|].
  all: match goal with
       | |- context [Math_round_Z ?x] =>
           assert (Z : (20 <= Math_round_Z x <= 80)%Z)
             by (apply Math_round_Z_range; lra)
       end.
  all: split; [exact Z|].
  all: rewrite length_append, toString16_two_digits by lia; split; reflexivity.
Qed.

Lemma heat_bg_colour_witness :
  exists c z,
    heat_bg (Num 91.99) = c ++ toString16_Z z /\
    c = (if Rlt_dec 90 91.99 then COLORS_primary
         else if Rlt_dec 70 91.99 then COLORS_secondary
         else if Rlt_dec 50 91.99 then COLORS_warning else COLORS_accent) /\
    (20 <= z <= 80)%Z /\
    String.length (toString16_Z z) = 2%nat /\
    String.length (heat_bg (Num 91.99)) = 9%nat.
Proof.
  apply heat_bg_colour. lra.
Defined.

(** ** The scatter of the benchmark and the cycling curves *)

(* a multiple of 0.1 is printed as it is *)
Lemma toFixedR_1_tenths (z : Z) :
  (0 <= z <= 10000)%Z -> toFixedR 1 (IZR z / 10) = IZR z / 10.
Proof.
  intros Hz.
  assert (H0 : 0 <= IZR z) by (apply IZR_le; lia).
  assert (H1 : IZR z <= 10000) by (apply IZR_le; lia).
  rewrite (toFixedR_nonneg 1 (IZR z / 10) z); [simpl; lra | lra | simpl; lra].
Qed.

(* rounding to one decimal moves a number by at most 0.05 *)
Lemma toFixedR_1_close (y : R) :
  0 <= y <= 10000 -> y - 0.05 <= toFixedR 1 y <= y + 0.05.
Proof.
  intros Hy. unfold toFixedR.
  rewrite (Rabs_pos_eq y) by lra.
  destruct (Rle_dec (10 ^ 21) y) as [H|_]; [lra|].
  destruct (Rle_dec 0 y) as [_|H]; [|lra].
  pose proof (Zfloor_bound (y * 10 ^ 1 + 1 / 2)) as [B1 B2].
  simpl in *. lra.
Qed.

Lemma toFixedR_1_between (lo hi y : R) (zl zh : Z) :
  (0 <= zl <= 10000)%Z -> (0 <= zh <= 10000)%Z ->
  lo = IZR zl / 10 -> hi = IZR zh / 10 ->
  lo <= y <= hi -> lo <= toFixedR 1 y <= hi.
Proof.
  intros Hl Hh -> -> [H1 H2].
  pose proof (toFixedR_le 1 _ _ H1) as L1. pose proof (toFixedR_le 1 _ _ H2) as L2.
  rewrite toFixedR_1_tenths in L1, L2 by assumption. now split.
Qed.

(** With every draw in [0, 1) the scatter of the benchmark has 60 points,
    each with an actual value in [10, 95], a predicted value in [6, 99], and
    the two no more than 4.1 apart. *)
Theorem scatterData_within_axes (random : nat -> R) :
  unit_draws random ->
  List.length (scatterData random) = 60%nat /\
  Forall (fun pt =>
    10 <= ScatterPoint.actual pt <= 95 /\
    6 <= ScatterPoint.predicted pt <= 99 /\
    Rabs (ScatterPoint.predicted pt - ScatterPoint.actual pt) <= 4.1)
    (scatterData random).
Proof.
  intros Hu. unfold scatterData. rewrite push_drawing_map. split.
  - now rewrite length_map, length_seq.
  - apply Forall_forall. intros pt Hpt. apply in_map_iff in Hpt.
    destruct Hpt as (i & <- & _). cbn [ScatterPoint.actual ScatterPoint.predicted].
    pose proof (Hu (2 * i)%nat) as H1. pose proof (Hu (2 * i + 1)%nat) as H2.
    set (actual := 10 + random (2 * i)%nat * 85) in *.
    set (noise := (random (2 * i + 1)%nat - 0.5) * 8) in *.
    assert (Ha : 10 <= actual <= 95) by (unfold actual; lra).
    assert (Hn : -4 <= noise <= 4) by (unfold noise; lra).
    assert (A : 10 <= toFixedR 1 actual <= 95)
      by (apply (toFixedR_1_between 10 95 _ 100 950); lia || lra).
    assert (P : 6 <= toFixedR 1 (actual + noise) <= 99)
      by (apply (toFixedR_1_between 6 99 _ 60 990); lia || lra).
    pose proof (toFixedR_1_close actual ltac:(lra)) as CA.
    pose proof (toFixedR_1_close (actual + noise) ltac:(lra)) as CP.
    split; [lra|]. split; [lra|]. apply Rabs_le. lra.
Qed.

Lemma scatterData_within_axes_witness :
  List.length (scatterData (fun _ => 0.25)) = 60%nat /\
  Forall (fun pt =>
    10 <= ScatterPoint.actual pt <= 95 /\
    6 <= ScatterPoint.predicted pt <= 99 /\
    Rabs (ScatterPoint.predicted pt - ScatterPoint.actual pt) <= 4.1)
    (scatterData (fun _ => 0.25)).
Proof.
  apply scatterData_within_axes. intros k. lra.
Defined.

(** With every draw in [0, 1) the cycling curves have the ten rows of the
    cycles 1, 2, ..., 10, and every value stays between the floor of its
    curve and the start of the curve plus half the noise: Cd(II) in
    [75, 99], Pb(II) in [78, 100], As(III) in [60, 91], Nap in [55, 86.5]. *)
Theorem cycleData_within_axis (random : nat -> R) :
  unit_draws random ->
  map CycleRow.cycle (cycleData random) = seq 1 10 /\
  Forall (fun row =>
    75 <= CycleRow.Cd_II row <= 99 /\
    78 <= CycleRow.Pb_II row <= 100 /\
    60 <= CycleRow.As_III row <= 91 /\
    55 <= CycleRow.Nap row <= 86.5)
    (cycleData random).
Proof.
  intros Hu. unfold cycleData. rewrite push_drawing_map. split.
  - rewrite map_map. cbn [CycleRow.cycle]. reflexivity.
  - apply Forall_forall. intros row Hrow. apply in_map_iff in Hrow.
    destruct Hrow as (i & <- & _).
    cbn [CycleRow.Cd_II CycleRow.Pb_II CycleRow.As_III CycleRow.Nap].
    pose proof (pos_INR i) as Hi.
    pose proof (Hu (4 * i)%nat) as H0. pose proof (Hu (4 * i + 1)%nat) as H1.
    pose proof (Hu (4 * i + 2)%nat) as H2. pose proof (Hu (4 * i + 3)%nat) as H3.
    assert (M : forall lo x hi, lo <= hi -> x <= hi -> lo <= Rmax lo x <= hi).
    { intros lo x hi Hl Hx. unfold Rmax. destruct (Rle_dec lo x); lra. }
    split; [|split; [|split]].
    all: first
      [ apply (toFixedR_1_between 75 99 _ 750 990)
      | apply (toFixedR_1_between 78 100 _ 780 1000)
      | apply (toFixedR_1_between 60 91 _ 600 910)
      | apply (toFixedR_1_between 55 86.5 _ 550 865) ].
    all: try lia; try lra.
    all: apply M; lra || nra.
Qed.

Lemma cycleData_within_axis_witness :
  map CycleRow.cycle (cycleData (fun _ => 0.25)) = seq 1 10 /\
  Forall (fun row =>
    75 <= CycleRow.Cd_II row <= 99 /\
    78 <= CycleRow.Pb_II row <= 100 /\
    60 <= CycleRow.As_III row <= 91 /\
    55 <= CycleRow.Nap row <= 86.5)
    (cycleData (fun _ => 0.25)).
Proof.
  apply cycleData_within_axis. intros k. lra.
Defined.

(** ** The overflow of [Math.exp] in [predictRemoval] *)

Lemma registered_pollutant (key : string) (p : Pollutant) :
  get POLLUTANT_MOD key = Own p ->
  p = Cd_II \/ p = Pb_II \/ p = As_III \/ p = Nap.
Proof.
  intros H. apply get_own_in in H. simpl in H.
  repeat (destruct H as [H|H]; [injection H as _ H; subst p; tauto|]).
  contradiction.
Qed.

Lemma concDecay_bound (key : string) (m : Material) :
  get MODEL_PARAMS key = Own m -> 0 < concDecay m <= 0.018.
Proof.
  intros H. apply registered_material in H.
  destruct H as [ -> | [ -> | [ -> | [ -> | -> ]]]]; simpl; lra.
Qed.

Lemma concBase_bound (key : string) (p : Pollutant) :
  get POLLUTANT_MOD key = Own p -> 0 <= concBase p <= 50.
Proof.
  intros H. apply registered_pollutant in H.
  destruct H as [ -> | [ -> | [ -> | -> ]]]; simpl; lra.
Qed.

Lemma Math_exp_finite (x : R) :
  x <= Overflow.exp_max -> Overflow.Math_exp (Overflow.Fin x) = Overflow.Fin (exp x).
Proof.
  intros H. unfold Overflow.Math_exp.
  destruct (Rlt_dec Overflow.exp_max x) as [H'|_]; [lra | reflexivity].
Qed.

Lemma Math_exp_overflow (x : R) :
  Overflow.exp_max < x -> Overflow.Math_exp (Overflow.Fin x) = Overflow.PInf.
Proof.
  intros H. unfold Overflow.Math_exp.
  destruct (Rlt_dec Overflow.exp_max x) as [_|H']; [reflexivity | contradiction].
Qed.

(* on the physical domain the three factors are the real-valued ones *)
Lemma overflow_kinetic (m : Material) (time : R) :
  0 < timeK m -> 0 <= time ->
  Overflow.kinetic (Own m) time = Overflow.Fin (kinetic m time).
Proof.
  intros Hk Ht. unfold Overflow.kinetic.
  cbn [Overflow.field Overflow.neg Overflow.mul].
  rewrite Math_exp_finite by (unfold Overflow.exp_max; nra). reflexivity.
Qed.

Lemma overflow_phEffect (p : Pollutant) (pH : R) :
  0 <= pH <= 14 -> Overflow.phEffect (Own p) pH = Overflow.Fin (phEffect p pH).
Proof.
  intros HpH. unfold Overflow.phEffect, phEffect. cbn [field_is].
  destruct (phDir p =? 1)%Z; [|destruct (phDir p =? -1)%Z];
    cbn [Overflow.sub Overflow.neg Overflow.add Overflow.mul Overflow.Math_pow];
    (rewrite Math_exp_finite by (unfold Overflow.exp_max; nra));
    reflexivity.
Qed.

Lemma overflow_concEffect (adsorbent pollutant : string) (m : Material) (p : Pollutant)
  (concentration : R) :
  get MODEL_PARAMS adsorbent = Own m -> get POLLUTANT_MOD pollutant = Own p ->
  0 <= concentration ->
  Overflow.concEffect (Own m) (Own p) concentration
  = Overflow.Fin (concEffect m p concentration).
Proof.
  intros Em Ep Hc. unfold Overflow.concEffect.
  cbn [Overflow.field Overflow.neg Overflow.sub Overflow.add Overflow.mul].
  pose proof (concDecay_bound _ _ Em). pose proof (concBase_bound _ _ Ep).
  rewrite Math_exp_finite by (unfold Overflow.exp_max; nra). reflexivity.
Qed.

(* the result on the physical domain, for a material and a contaminant of
   the registries *)
Lemma overflow_own (adsorbent pollutant : string) (m : Material) (p : Pollutant)
  (pH concentration time : R) (competition : bool) :
  get MODEL_PARAMS adsorbent = Own m -> get POLLUTANT_MOD pollutant = Own p ->
  physical pH concentration time ->
  Overflow.predictRemoval adsorbent pollutant pH concentration time competition =
  {| Overflow.mean :=
       Overflow.Fin (round2 (clamp (rawRemoval m p pH concentration time competition)));
     Overflow.std := Overflow.Fin (round2 (rawStd m pH time)) |}.
Proof.
  intros Em Ep (HpH & Hc & Ht).
  destruct (material_sound _ _ Em) as (_ & Hk & _ & _).
  unfold Overflow.predictRemoval. rewrite Em, Ep. cbn [truthy negb orb].
  cbv zeta.
  rewrite (overflow_kinetic m time Hk Ht), (overflow_phEffect p pH HpH),
    (overflow_concEffect _ _ m p concentration Em Ep Hc).
  destruct competition; reflexivity.
Qed.

(* on the physical domain, and unless an identifier is a member of
   Object.prototype, the two embeddings of [predictRemoval] agree *)
Lemma overflow_agrees (adsorbent pollutant : string)
  (pH concentration time : R) (competition : bool) :
  ~ inherited MODEL_PARAMS adsorbent -> ~ inherited POLLUTANT_MOD pollutant ->
  physical pH concentration time ->
  Overflow.predictRemoval adsorbent pollutant pH concentration time competition =
  {| Overflow.mean :=
       Overflow.inject
         (mean (predictRemoval adsorbent pollutant pH concentration time competition));
     Overflow.std :=
       Overflow.inject
         (std (predictRemoval adsorbent pollutant pH concentration time competition)) |}.
Proof.
  intros Hm Hp Hd.
  destruct (get MODEL_PARAMS adsorbent) as [m| |] eqn:Em; [|contradiction|].
  - destruct (get POLLUTANT_MOD pollutant) as [p| |] eqn:Ep; [|contradiction|].
    + rewrite (overflow_own _ _ m p), (predictRemoval_own _ _ m p) by assumption.
      reflexivity.
    + rewrite predictRemoval_undefined_pollutant by assumption.
      unfold Overflow.predictRemoval. rewrite Em, Ep. reflexivity.
  - rewrite predictRemoval_undefined_material by assumption.
    unfold Overflow.predictRemoval. rewrite Em. reflexivity.
Qed.

(* the pH factor is finite at every pH *)
Lemma overflow_phEffect_finite (p : Pollutant) (pH : R) :
  exists f, Overflow.phEffect (Own p) pH = Overflow.Fin f.
Proof.
  unfold Overflow.phEffect. cbn [field_is].
  destruct (phDir p =? 1)%Z; [|destruct (phDir p =? -1)%Z];
    cbn [Overflow.sub Overflow.neg Overflow.add Overflow.mul Overflow.Math_pow].
  - unfold Overflow.Math_exp.
    match goal with |- context [Rlt_dec ?a ?b] => destruct (Rlt_dec a b) end;
      eexists; reflexivity.
  - unfold Overflow.Math_exp.
    match goal with |- context [Rlt_dec ?a ?b] => destruct (Rlt_dec a b) end;
      eexists; reflexivity.
  - rewrite Math_exp_finite by (unfold Overflow.exp_max; nra).
    eexists; reflexivity.
Qed.

(* a product with the factor 0 that meets an infinite concentration factor:
   with no contact time the mean is NaN as soon as
   [Math.exp(-m.concDecay * (concentration - p.concBase))] overflows *)
Lemma overflow_no_contact_nan (adsorbent pollutant : string) (m : Material)
  (p : Pollutant) (pH concentration : R) (competition : bool) :
  get MODEL_PARAMS adsorbent = Own m -> get POLLUTANT_MOD pollutant = Own p ->
  Overflow.exp_max < - concDecay m * (concentration - concBase p) ->
  Overflow.predictRemoval adsorbent pollutant pH concentration 0 competition =
  {| Overflow.mean := Overflow.Nan;
     Overflow.std := Overflow.Fin (round2 (rawStd m pH 0)) |}.
Proof.
  intros Em Ep Hc.
  destruct (material_sound _ _ Em) as (_ & Hk & _ & _).
  unfold Overflow.predictRemoval. rewrite Em, Ep. cbn [truthy negb orb]. cbv zeta.
  rewrite (overflow_kinetic m 0 Hk ltac:(lra)).
  destruct (overflow_phEffect_finite p pH) as [f ->].
  unfold Overflow.concEffect.
  cbn [Overflow.field Overflow.neg Overflow.sub Overflow.add Overflow.mul].
  rewrite Math_exp_overflow by exact Hc.
  rewrite kinetic_0.
  cbn [Overflow.mul].
  destruct (Rlt_dec 0 (base m * 0 * f)) as [H|_]; [lra|].
  destruct (Rlt_dec (base m * 0 * f) 0) as [H|_]; [lra|].
  destruct competition; cbn; repeat f_equal; unfold rawStd; rewrite kinetic_0; reflexivity.
Qed.

(* with a contact time above 0 the infinite concentration factor meets a
   positive product, and the clamped mean is 100 *)
Lemma overflow_contact_saturates (adsorbent pollutant : string) (m : Material)
  (p : Pollutant) (pH concentration time : R) (competition : bool) :
  get MODEL_PARAMS adsorbent = Own m -> get POLLUTANT_MOD pollutant = Own p ->
  0 <= pH <= 14 -> 0 < time ->
  Overflow.exp_max < - concDecay m * (concentration - concBase p) ->
  Overflow.mean (Overflow.predictRemoval adsorbent pollutant pH concentration time
                   competition) = Overflow.Fin 100.
Proof.
  intros Em Ep HpH Ht Hc.
  destruct (material_sound _ _ Em) as (Hb & Hk & _ & _).
  pose proof (pollutant_sound _ _ Ep) as Ho.
  pose proof (kinetic_increasing m 0 time Hk Ht) as Hkin. rewrite kinetic_0 in Hkin.
  pose proof (phEffect_pos p pH) as Hf.
  pose proof (compPenalty_pos competition) as Hcp.
  unfold Overflow.predictRemoval. rewrite Em, Ep. cbn [truthy negb orb]. cbv zeta.
  rewrite (overflow_kinetic m time Hk ltac:(lra)), (overflow_phEffect p pH HpH).
  unfold Overflow.concEffect.
  cbn [Overflow.field Overflow.neg Overflow.sub Overflow.add Overflow.mul].
  rewrite Math_exp_overflow by exact Hc.
  cbn [Overflow.mul Overflow.mean].
  assert (Hpos : 0 < base m * kinetic m time * phEffect p pH)
    by (repeat apply Rmult_lt_0_compat; assumption).
  destruct (Rlt_dec 0 (base m * kinetic m time * phEffect p pH)) as [_|H];
    [|contradiction].
  cbn [Overflow.mul].
  destruct (Rlt_dec 0 (optMul p)) as [_|H]; [|contradiction].
  assert (E : (if competition then Overflow.Fin 0.92 else Overflow.Fin 1.0)
              = Overflow.Fin (compPenalty competition)) by (now destruct competition).
  rewrite E. cbn [Overflow.mul].
  destruct (Rlt_dec 0 (compPenalty competition)) as [_|H]; [|contradiction].
  cbn. f_equal. replace (100 * 100) with (IZR 10000) by lra.
  unfold round_half_up.
  rewrite (Zfloor_eq 10000) by lra. lra.
Qed.

Lemma inject_le (x y : JS.num) :
  num_le x y -> Overflow.num_le (Overflow.inject x) (Overflow.inject y).
Proof. destruct x, y; simpl; tauto. Qed.

(** ** Monotonicity on the physical domain *)







(** For a material of the registries, a contaminant of the registries whose
    [phDir] is -1 (favoured at low pH), a concentration and a contact time
    that are not negative, and any competition flag: over the pH scale the
    mean removal returned at [pH2] is at most the one returned at [pH1]
    whenever [pH1 <= pH2]. *)
Theorem low_pH_monotone (adsorbent pollutant : string) (m : Material) (p : Pollutant)
  (concentration time : R) (competition : bool) (pH1 pH2 : R) :
  get MODEL_PARAMS adsorbent = Own m -> get POLLUTANT_MOD pollutant = Own p ->
  phDir p = (-1)%Z -> 0 <= concentration -> 0 <= time ->
  0 <= pH1 -> pH1 <= pH2 -> pH2 <= 14 ->
  Overflow.num_le
    (Overflow.mean (Overflow.predictRemoval adsorbent pollutant pH2 concentration time
                      competition))
    (Overflow.mean (Overflow.predictRemoval adsorbent pollutant pH1 concentration time
                      competition)).
Proof.
  intros Em Ep Hd Hc Ht H1 H12 H2.
  destruct (material_sound _ _ Em) as (Hb & Hk & _ & _).
  pose proof (pollutant_sound _ _ Ep) as Ho.
  rewrite !(overflow_own _ _ m p) by (unfold physical; repeat split; lra || assumption).
  simpl. apply round2_le, clamp_le, rawRemoval_pH_le; try assumption.
  - now apply kinetic_nonneg.
  - now apply phEffect_low_decreasing.
Qed.

Lemma low_pH_monotone_witness :
  Overflow.num_le
    (Overflow.mean (Overflow.predictRemoval "NC" "As(III)" 8 10 15 false))
    (Overflow.mean (Overflow.predictRemoval "NC" "As(III)" 2 10 15 false)).
Proof.
  eapply (low_pH_monotone "NC" "As(III)" _ _ 10 15 false 2 8);
    [reflexivity | reflexivity | reflexivity | lra | lra | lra | lra | lra].
Defined.

(** ** The result on the physical domain *)

(** For every pair of identifiers neither of which is a member of
    Object.prototype (registered or unknown), every competition flag, and
    inputs of the physical domain (a pH on the pH scale, a concentration and
    a contact time that are not negative), the returned mean is a number in
    [0, 100] and the returned std is positive. *)
Theorem predictRemoval_range (adsorbent pollutant : string)
  (pH concentration time : R) (competition : bool) :
  ~ inherited MODEL_PARAMS adsorbent -> ~ inherited POLLUTANT_MOD pollutant ->
  physical pH concentration time ->
  Overflow.within 0 100
    (Overflow.mean (Overflow.predictRemoval adsorbent pollutant pH concentration time
                      competition)) /\
  Overflow.is_positive
    (Overflow.std (Overflow.predictRemoval adsorbent pollutant pH concentration time
                     competition)).
Proof.
  intros Hm Hp Hd. rewrite overflow_agrees by assumption.
  destruct (prediction_bounds adsorbent pollutant pH concentration time competition Hm Hp)
    as (a & s & -> & Ha & Hs).
  simpl. split; [exact Ha | lra].
Qed.

Lemma predictRemoval_range_witness :
  Overflow.within 0 100
    (Overflow.mean (Overflow.predictRemoval "MNCJG" "Cd(II)" 6 10 15 false)) /\
  Overflow.is_positive
    (Overflow.std (Overflow.predictRemoval "MNCJG" "Cd(II)" 6 10 15 false)).
Proof.
  apply predictRemoval_range;
    [ intros H; discriminate H | intros H; discriminate H | unfold physical; lra ].
Defined.

(** With no contact time the predicted removal is the synergy bonus of the
    material: for a material and a contaminant of the registries, a pH on
    the pH scale, a concentration that is not negative and any competition
    flag, the mean returned at contact time 0 is 5 for MNCJG, 3 for NCJG and
    0 for the other materials. *)
Theorem predictRemoval_no_contact (adsorbent pollutant : string) (m : Material)
  (p : Pollutant) (pH concentration : R) (competition : bool) :
  get MODEL_PARAMS adsorbent = Own m -> get POLLUTANT_MOD pollutant = Own p ->
  0 <= pH <= 14 -> 0 <= concentration ->
  Overflow.mean (Overflow.predictRemoval adsorbent pollutant pH concentration 0 competition)
  = Overflow.Fin (synergy m) /\
  In (synergy m) [5; 3; 0].
Proof.
  intros Em Ep HpH Hc. split.
  - rewrite (overflow_own _ _ m p) by (unfold physical; repeat split; lra || assumption).
    simpl. f_equal. unfold rawRemoval. rewrite kinetic_0.
    replace (base m * 0 * phEffect p pH * concEffect m p concentration * optMul p
             * compPenalty competition + synergy m) with (synergy m) by ring.
    now apply (synergy_fixed adsorbent).
  - apply registered_material in Em.
    destruct Em as [ -> | [ -> | [ -> | [ -> | -> ]]]]; simpl; tauto.
Qed.

Lemma predictRemoval_no_contact_witness :
  Overflow.mean (Overflow.predictRemoval "NCJG" "Nap" 4 50 0 true)
  = Overflow.Fin (synergy NCJG) /\
  In (synergy NCJG) [5; 3; 0].
Proof.
  apply (predictRemoval_no_contact "NCJG" "Nap" NCJG Nap);
    [ reflexivity | reflexivity | lra | lra ].
Defined.

(** Competing ions never raise the prediction: for identifiers neither of
    which is a member of Object.prototype and inputs of the physical domain,
    the mean predicted with competition is at most the mean predicted
    without, all other inputs equal. *)
Theorem competition_never_raises (adsorbent pollutant : string)
  (pH concentration time : R) :
  ~ inherited MODEL_PARAMS adsorbent -> ~ inherited POLLUTANT_MOD pollutant ->
  physical pH concentration time ->
  Overflow.num_le
    (Overflow.mean (Overflow.predictRemoval adsorbent pollutant pH concentration time true))
    (Overflow.mean (Overflow.predictRemoval adsorbent pollutant pH concentration time false)).
Proof.
  intros Hm Hp Hd. rewrite !overflow_agrees by assumption.
  cbn [Overflow.mean]. apply inject_le.
  destruct Hd as (_ & _ & Ht).
  destruct (get MODEL_PARAMS adsorbent) as [m| |] eqn:Em; [|contradiction|].
  - destruct (get POLLUTANT_MOD pollutant) as [p| |] eqn:Ep; [|contradiction|].
    + destruct (material_sound _ _ Em) as (Hb & Hk & _ & _).
      pose proof (pollutant_sound _ _ Ep) as Ho.
      apply (mean_le_of_raw _ _ m p); try assumption.
      apply rawRemoval_factors_le; try assumption; try lra.
      * now apply kinetic_nonneg.
      * simpl. lra.
    + rewrite !predictRemoval_undefined_pollutant by assumption. simpl. lra.
  - rewrite !predictRemoval_undefined_material by assumption. simpl. lra.
Qed.

Lemma competition_never_raises_witness :
  Overflow.num_le
    (Overflow.mean (Overflow.predictRemoval "MNC" "Pb(II)" 5 20 30 true))
    (Overflow.mean (Overflow.predictRemoval "MNC" "Pb(II)" 5 20 30 false)).
Proof.
  apply competition_never_raises;
    [ intros H; discriminate H | intros H; discriminate H | unfold physical; lra ].
Defined.

(** A higher initial concentration never raises the prediction: for
    identifiers neither of which is a member of Object.prototype, a pH on
    the pH scale, a contact time that is not negative and any competition
    flag, the mean is non-increasing in the concentration over the
    concentrations that are not negative. *)
Theorem concentration_monotone (adsorbent pollutant : string)
  (pH time : R) (competition : bool) (c1 c2 : R) :
  ~ inherited MODEL_PARAMS adsorbent -> ~ inherited POLLUTANT_MOD pollutant ->
  0 <= pH <= 14 -> 0 <= time -> 0 <= c1 <= c2 ->
  Overflow.num_le
    (Overflow.mean (Overflow.predictRemoval adsorbent pollutant pH c2 time competition))
    (Overflow.mean (Overflow.predictRemoval adsorbent pollutant pH c1 time competition)).
Proof.
  intros Hm Hp HpH Ht [H1 H12].
  rewrite !overflow_agrees by (try assumption; unfold physical; repeat split; lra).
  cbn [Overflow.mean]. apply inject_le.
  destruct (get MODEL_PARAMS adsorbent) as [m| |] eqn:Em; [|contradiction|].
  - destruct (get POLLUTANT_MOD pollutant) as [p| |] eqn:Ep; [|contradiction|].
    + destruct (material_sound _ _ Em) as (Hb & Hk & Hd & _).
      pose proof (pollutant_sound _ _ Ep) as Ho.
      apply (mean_le_of_raw _ _ m p); try assumption.
      apply rawRemoval_factors_le; try assumption; try lra.
      * now apply kinetic_nonneg.
      * now apply concEffect_decreasing.
    + rewrite !predictRemoval_undefined_pollutant by assumption. simpl. lra.
  - rewrite !predictRemoval_undefined_material by assumption. simpl. lra.
Qed.

Lemma concentration_monotone_witness :
  Overflow.num_le
    (Overflow.mean (Overflow.predictRemoval "MWM" "As(III)" 6 40 30 false))
    (Overflow.mean (Overflow.predictRemoval "MWM" "As(III)" 6 1 30 false)).
Proof.
  apply concentration_monotone;
    [intros H; discriminate H | intros H; discriminate H | lra | lra | lra].
Defined.

(** For a contaminant whose pH direction is neither 1 nor -1 (Nap), a
    material of the registries and inputs of the physical domain, the mean
    is largest at pH 6: the mean returned at any pH of the pH scale is at
    most the mean returned at pH 6. *)
Theorem neutral_pH_peak (adsorbent pollutant : string) (m : Material) (p : Pollutant)
  (concentration time : R) (competition : bool) (pH : R) :
  get MODEL_PARAMS adsorbent = Own m -> get POLLUTANT_MOD pollutant = Own p ->
  phDir p <> 1%Z -> phDir p <> (-1)%Z -> physical pH concentration time ->
  Overflow.num_le
    (Overflow.mean (Overflow.predictRemoval adsorbent pollutant pH concentration time
                      competition))
    (Overflow.mean (Overflow.predictRemoval adsorbent pollutant 6 concentration time
                      competition)).
Proof.
  intros Em Ep H1 H2 (HpH & Hc & Ht).
  destruct (material_sound _ _ Em) as (Hb & Hk & _ & _).
  pose proof (pollutant_sound _ _ Ep) as Ho.
  rewrite !(overflow_own _ _ m p) by (unfold physical; repeat split; lra || assumption).
  simpl. apply round2_le, clamp_le, rawRemoval_pH_le; try assumption.
  - now apply kinetic_nonneg.
  - now apply phEffect_neutral_peak.
Qed.

Lemma neutral_pH_peak_witness :
  Overflow.num_le
    (Overflow.mean (Overflow.predictRemoval "MNCJG" "Nap" 3 50 30 false))
    (Overflow.mean (Overflow.predictRemoval "MNCJG" "Nap" 6 50 30 false)).
Proof.
  apply (neutral_pH_peak "MNCJG" "Nap" MNCJG Nap);
    [ reflexivity | reflexivity | discriminate | discriminate | unfold physical; lra ].
Defined.

(** ** NaN by overflow *)

(** The clamp does not catch an overflow.  For a material and a contaminant
    of the registries and a pH on the pH scale, when the exponent
    [-m.concDecay * (concentration - p.concBase)] is 710 or more (a
    concentration far below 0), [Math.exp] returns Infinity: with no contact
    time the kinetic factor 0 meets it and the returned mean is NaN, and
    with a contact time of 0.001 or more the returned mean is 100. *)
Theorem predictRemoval_concentration_overflow (adsorbent pollutant : string)
  (m : Material) (p : Pollutant) (pH concentration : R) (competition : bool) :
  get MODEL_PARAMS adsorbent = Own m -> get POLLUTANT_MOD pollutant = Own p ->
  0 <= pH <= 14 -> 710 <= - concDecay m * (concentration - concBase p) ->
  Overflow.mean (Overflow.predictRemoval adsorbent pollutant pH concentration 0 competition)
  = Overflow.Nan /\
  forall time, 0.001 <= time ->
    Overflow.mean (Overflow.predictRemoval adsorbent pollutant pH concentration time
                     competition) = Overflow.Fin 100.
Proof.
  intros Em Ep HpH Hc.
  assert (Hc' : Overflow.exp_max < - concDecay m * (concentration - concBase p))
    by (unfold Overflow.exp_max; lra).
  split.
  - now rewrite (overflow_no_contact_nan _ _ m p).
  - intros time Ht. apply (overflow_contact_saturates _ _ m p); try assumption. lra.
Qed.

Lemma predictRemoval_concentration_overflow_witness :
  Overflow.mean (Overflow.predictRemoval "MNCJG" "Cd(II)" 6 (-100000) 0 false)
  = Overflow.Nan /\
  forall time, 0.001 <= time ->
    Overflow.mean (Overflow.predictRemoval "MNCJG" "Cd(II)" 6 (-100000) time false)
    = Overflow.Fin 100.
Proof.
  apply (predictRemoval_concentration_overflow "MNCJG" "Cd(II)" MNCJG Cd_II);
    [ reflexivity | reflexivity | lra | simpl; lra ].
Defined.

(** A second way to NaN, with both identifiers registered.  For a material
    of the registries and a contaminant of the registries whose [phDir] is
    1, a contact time so far below 0 and a pH so far below the pH scale that
    both exponents [-m.timeK * time] and [-1.5 * (pH - 4.5)] are 710 or
    more: the kinetic factor is -Infinity, the pH factor is 0, their
    product is NaN, and the result is mean NaN with std Infinity, whatever
    the concentration. *)
Theorem predictRemoval_time_overflow (adsorbent pollutant : string)
  (m : Material) (p : Pollutant) (pH concentration time : R) (competition : bool) :
  get MODEL_PARAMS adsorbent = Own m -> get POLLUTANT_MOD pollutant = Own p ->
  phDir p = 1%Z ->
  710 <= - timeK m * time -> 710 <= -1.5 * (pH - 4.5) ->
  Overflow.predictRemoval adsorbent pollutant pH concentration time competition
  = {| Overflow.mean := Overflow.Nan; Overflow.std := Overflow.PInf |}.
Proof.
  intros Em Ep Hdir Ht HpH.
  destruct (material_sound _ _ Em) as (Hb & Hk & _ & _).
  unfold Overflow.predictRemoval. rewrite Em, Ep. cbn [truthy negb orb]. cbv zeta.
  unfold Overflow.kinetic, Overflow.phEffect. cbn [field_is]. rewrite Hdir.
  cbn [Z.eqb Pos.eqb].
  cbn [Overflow.field Overflow.neg Overflow.sub Overflow.add Overflow.mul].
  rewrite !Math_exp_overflow by (unfold Overflow.exp_max; lra).
  cbn [Overflow.field Overflow.neg Overflow.sub Overflow.add Overflow.mul Overflow.div].
  destruct (Rlt_dec 0 (base m)) as [_|H]; [|contradiction].
  cbn [Overflow.mul].
  destruct (Rlt_dec 0 0) as [H|_]; [lra|].
  destruct (Rlt_dec 0 3.0) as [_|H]; [|lra].
  destruct (Overflow.concEffect (Own m) (Own p) concentration);
    destruct competition;
    cbn [Overflow.mul Overflow.add Overflow.Math_max Overflow.Math_min
         Overflow.Math_round Overflow.div Overflow.Math_abs];
    repeat match goal with
           | |- context [Rlt_dec ?a ?b] =>
               destruct (Rlt_dec a b); try lra;
               cbn [Overflow.mul Overflow.add Overflow.Math_max Overflow.Math_min
                    Overflow.Math_round Overflow.div Overflow.Math_abs]
           end;
    reflexivity.
Qed.

Lemma predictRemoval_time_overflow_witness :
  Overflow.predictRemoval "MNCJG" "Cd(II)" (-1000) 10 (-10000) false
  = {| Overflow.mean := Overflow.Nan; Overflow.std := Overflow.PInf |}.
Proof.
  apply (predictRemoval_time_overflow "MNCJG" "Cd(II)" MNCJG Cd_II);
    [ reflexivity | reflexivity | reflexivity | simpl; lra | lra ].
Defined.

(** ** The panels on the physical domain

    The data of the panels are computed with the exact embedding; the
    statements below are restricted to inputs of the physical domain, where
    it agrees with the embedding with overflow ([overflow_agrees]). *)



(** For a registered material and a registered contaminant, a pH on the pH
    scale and a concentration that is not negative, the kinetic curve rises
    with contact time: of any two of its points the later one has the larger
    time and a removal that is not smaller. *)
Theorem kineticData_rises (ads pol : string) (m : Material) (p : Pollutant)
  (pH conc : R) (comp : bool) :
  get MODEL_PARAMS ads = Own m -> get POLLUTANT_MOD pol = Own p ->
  0 <= pH <= 14 -> 0 <= conc ->
  StronglySorted
    (fun a b => (KineticPoint.time a < KineticPoint.time b)%R /\
                num_le (KineticPoint.removal a) (KineticPoint.removal b))
    (kineticData ads pol pH conc comp).
Proof.
  intros Em Ep _ _. unfold kineticData. rewrite push_each_map.
  apply StronglySorted_map_seq. intros i j Hij _. cbn. split.
  - apply lt_INR. lia.
  - destruct (material_sound _ _ Em) as (Hb & Hk & _ & _).
    pose proof (pollutant_sound _ _ Ep) as Ho.
    apply (mean_le_of_raw _ _ m p); try assumption.
    apply rawRemoval_time_le; try assumption.
    apply kinetic_le; [assumption|]. apply le_INR. lia.
Qed.

Lemma kineticData_rises_witness :
  StronglySorted
    (fun a b => (KineticPoint.time a < KineticPoint.time b)%R /\
                num_le (KineticPoint.removal a) (KineticPoint.removal b))
    (kineticData "NCJG" "As(III)" 4 20 true).
Proof.
  apply (kineticData_rises "NCJG" "As(III)" NCJG As_III); reflexivity || lra.
Defined.

(** For a registered material, a concentration and a contact time that are
    not negative, the rows of the pH response follow the direction of the
    contaminant: down the rows (pH rising from 2 to 8) the column of a
    contaminant of direction 1 (Cd(II), Pb(II)) never falls, the column of a
    contaminant of direction -1 (As(III)) never rises, and the column of any
    other contaminant (Nap) is nowhere above its value in the row of pH 6. *)
Theorem phData_trends (fuel : nat) (ads : string) (m : Material) (conc time : R) :
  get MODEL_PARAMS ads = Own m -> 0 <= conc -> 0 <= time -> (14 <= fuel)%nat ->
  exists rows,
    phData fuel ads conc time = Some rows /\
    forall key p, get POLLUTANT_MOD key = Own p ->
      (phDir p = 1%Z -> StronglySorted (column_le key) rows) /\
      (phDir p = (-1)%Z -> StronglySorted (fun r1 r2 => column_le key r2 r1) rows) /\
      (phDir p <> 1%Z -> phDir p <> (-1)%Z ->
       exists r6, In r6 rows /\ PhRow.pH r6 = 6 /\
                  Forall (fun row => column_le key row r6) rows).
Proof.
  intros Em Hc Ht Hfuel. eexists. split; [now apply phData_closed|].
  intros key p Ep. pose proof (registered_pollutant_key _ _ Ep) as Hkey.
  destruct (material_sound _ _ Em) as (Hb & Hk & _ & _).
  pose proof (pollutant_sound _ _ Ep) as Ho.
  pose proof (kinetic_nonneg m time Hk Ht) as Hkin.
  assert (L : forall x y, phEffect p x <= phEffect p y ->
              column_le key (phRow ads conc time x) (phRow ads conc time y)).
  { intros x y H. unfold column_le. rewrite !column_phRow by assumption.
    apply (mean_le_of_raw _ _ m p); try assumption.
    apply rawRemoval_pH_le; assumption. }
  split; [|split].
  - intros Hdir. apply StronglySorted_map.
    eapply StronglySorted_weaken with (P := fun _ => True);
      [ | apply Forall_forall; intros; exact I | apply ph_grid_sorted ].
    intros x y _ _ Hxy. apply L. now apply phEffect_high_increasing.
  - intros Hdir. apply StronglySorted_map.
    eapply StronglySorted_weaken with (P := fun _ => True);
      [ | apply Forall_forall; intros; exact I | apply ph_grid_sorted ].
    intros x y _ _ Hxy. apply L. now apply phEffect_low_decreasing.
  - intros H1 H2. exists (phRow ads conc time 6). split; [|split].
    + apply in_map. rewrite ph_grid_values. simpl. tauto.
    + reflexivity.
    + apply Forall_forall. intros row Hrow. apply in_map_iff in Hrow.
      destruct Hrow as (x & <- & _). apply L. now apply phEffect_neutral_peak.
Qed.

Lemma phData_trends_witness :
  exists rows,
    phData 14 "MNCJG" 10 30 = Some rows /\
    forall key p, get POLLUTANT_MOD key = Own p ->
      (phDir p = 1%Z -> StronglySorted (column_le key) rows) /\
      (phDir p = (-1)%Z -> StronglySorted (fun r1 r2 => column_le key r2 r1) rows) /\
      (phDir p <> 1%Z -> phDir p <> (-1)%Z ->
       exists r6, In r6 rows /\ PhRow.pH r6 = 6 /\
                  Forall (fun row => column_le key row r6) rows).
Proof.
  apply (phData_trends 14 "MNCJG" MNCJG); [reflexivity | lra | lra | lia].
Defined.

(** ** The search over ranges of the physical domain *)

(** For every call with identifiers neither of which is a member of
    Object.prototype, draws in [0, 1), ranges of the physical domain (a pH
    range within the pH scale, ranges of contact time and concentration
    whose bounds are not negative, each with its lower bound at most its
    upper bound) and an iteration count of at least 1, a best is returned;
    it is the sample of the first iteration with the largest acquisition
    score, and its pH, time, concentration, predicted and std are those of
    that entry of the history. *)
Theorem search_best_first_maximum (random : nat -> R) (pollutant adsorbent : string)
  (targetRemoval : R) (phRange timeRange concRange : R * R) (nIter : nat) :
  let result :=
    bayesianOptimize random pollutant adsorbent targetRemoval phRange timeRange
      concRange nIter in
  ~ inherited MODEL_PARAMS adsorbent -> ~ inherited POLLUTANT_MOD pollutant ->
  unit_draws random ->
  proper_range phRange -> snd phRange <= 14 ->
  proper_range timeRange -> proper_range concRange ->
  (1 <= nIter)%nat ->
  exists j s b e,
    first_maximum random pollutant adsorbent targetRemoval phRange timeRange concRange
      nIter j s /\
    best result = Some b /\ nth_error (history result) j = Some e /\
    Sample.iteration e = (j + 1)%nat /\
    Params.pH b = Sample.pH e /\ Params.time b = Sample.time e /\
    Params.concentration b = Sample.concentration e /\
    Params.predicted b = Sample.predicted e /\ Params.std b = Sample.std e /\
    forall i, (i < nIter)%nat ->
      exists ei, nth_error (history result) i = Some ei /\
        Overflow.predictRemoval adsorbent pollutant
          (trial_pH random phRange i) (trial_conc random concRange i)
          (trial_time random timeRange i) false
        = {| Overflow.mean := Overflow.inject (Sample.predicted ei);
             Overflow.std := Overflow.inject (Sample.std ei) |}.
Proof.
  intros result Hm Hp Hu HpH HpH14 Ht Hc Hn. subst result.
  destruct (run_best random pollutant adsorbent targetRemoval phRange timeRange
              concRange nIter) as [(_ & _ & Hall) | (j & s & Hfm & Hb & _)].
  - destruct (trial_score_numeric random pollutant adsorbent targetRemoval phRange
                timeRange concRange 0 Hm Hp) as [s Hs].
    rewrite Hall in Hs by lia. discriminate.
  - exists j, s,
      (trial_params random pollutant adsorbent phRange timeRange concRange j),
      (trial_sample random pollutant adsorbent targetRemoval phRange timeRange
         concRange j).
    split; [assumption|]. split; [now rewrite search_best|].
    split; [rewrite search_history; apply nth_error_map_seq; apply Hfm|].
    do 6 (split; [reflexivity|]).
    intros i Hi. eexists. split.
    + rewrite search_history. now apply nth_error_map_seq.
    + cbn [Sample.predicted Sample.std trial_sample]. unfold trial_pred.
      apply overflow_agrees; try assumption.
      unfold trial_pH, trial_conc, trial_time, proper_range, physical in *.
      pose proof (draw_in_range (fst phRange) (snd phRange) _ ltac:(lra)
                    (Hu (3 * i)%nat)).
      pose proof (draw_in_range (fst timeRange) (snd timeRange) _ ltac:(lra)
                    (Hu (3 * i + 1)%nat)).
      pose proof (draw_in_range (fst concRange) (snd concRange) _ ltac:(lra)
                    (Hu (3 * i + 2)%nat)).
      repeat split; lra.
Qed.

Lemma two_draws_unit : unit_draws two_draws.
Proof. intros k. unfold two_draws. destruct k as [|[|[|[|k]]]]; lra. Qed.

Lemma search_best_first_maximum_witness :
  exists j s b e,
    first_maximum two_draws "Cd(II)" "MNCJG" 0 (6, 7) (0, 0) (10, 10) 2 j s /\
    best (bayesianOptimize two_draws "Cd(II)" "MNCJG" 0 (6, 7) (0, 0) (10, 10) 2)
    = Some b /\
    nth_error
      (history (bayesianOptimize two_draws "Cd(II)" "MNCJG" 0 (6, 7) (0, 0) (10, 10) 2))
      j = Some e /\
    Sample.iteration e = (j + 1)%nat /\
    Params.pH b = Sample.pH e /\ Params.time b = Sample.time e /\
    Params.concentration b = Sample.concentration e /\
    Params.predicted b = Sample.predicted e /\ Params.std b = Sample.std e /\
    forall i, (i < 2)%nat ->
      exists ei,
        nth_error
          (history (bayesianOptimize two_draws "Cd(II)" "MNCJG" 0 (6, 7) (0, 0) (10, 10) 2))
          i = Some ei /\
        Overflow.predictRemoval "MNCJG" "Cd(II)"
          (trial_pH two_draws (6, 7) i) (trial_conc two_draws (10, 10) i)
          (trial_time two_draws (0, 0) i) false
        = {| Overflow.mean := Overflow.inject (Sample.predicted ei);
             Overflow.std := Overflow.inject (Sample.std ei) |}.
Proof.
  apply (search_best_first_maximum two_draws "Cd(II)" "MNCJG" 0 (6, 7) (0, 0) (10, 10) 2);
    [ intros H; discriminate H | intros H; discriminate H | apply two_draws_unit
    | unfold proper_range; simpl; lra | simpl; lra
    | unfold proper_range; simpl; lra | unfold proper_range; simpl; lra | lia ].
Defined.

(** The convergence line of a search ends at or above the returned best:
    for identifiers neither of which is a member of Object.prototype, draws
    in [0, 1), ranges of the physical domain and at least one iteration, the
    last point of the line drawn from the history has a number as
    [bestSoFar], and the predicted removal of the returned best (which is
    chosen by score, not by predicted removal) is at most that number. *)
Theorem convergence_covers_best (random : nat -> R) (pollutant adsorbent : string)
  (targetRemoval : R) (phRange timeRange concRange : R * R) (nIter : nat) :
  let result :=
    bayesianOptimize random pollutant adsorbent targetRemoval phRange timeRange
      concRange nIter in
  ~ inherited MODEL_PARAMS adsorbent -> ~ inherited POLLUTANT_MOD pollutant ->
  unit_draws random ->
  proper_range phRange -> snd phRange <= 14 ->
  proper_range timeRange -> proper_range concRange ->
  (1 <= nIter)%nat ->
  exists b pt v pb,
    best result = Some b /\
    nth_error (convergence (history result)) (nIter - 1) = Some pt /\
    ConvergencePoint.bestSoFar pt = Ext (Num v) /\
    Params.predicted b = Num pb /\ pb <= v.
Proof.
  intros result Hm Hp Hu HpH HpH14 Ht Hc Hn. subst result.
  rewrite search_best, search_history.
  set (sample := trial_sample random pollutant adsorbent targetRemoval phRange
                   timeRange concRange).
  assert (Hnum : Forall (fun e => exists r, Sample.predicted e = Num r)
                   (map sample (seq 0 nIter))).
  { apply Forall_forall. intros e He. apply in_map_iff in He.
    destruct He as (i & <- & _). cbn. now apply mean_numeric. }
  destruct (run_best random pollutant adsorbent targetRemoval phRange timeRange
              concRange nIter) as [(_ & _ & Hnan)|(j & s & Hmax & Hbest & _)].
  - destruct (trial_score_numeric random pollutant adsorbent targetRemoval phRange
                timeRange concRange 0 Hm Hp) as [s Hs].
    rewrite (Hnan 0%nat) in Hs by lia. discriminate Hs.
  - destruct Hmax as (Hj & _).
    assert (Hlast : nth_error (map sample (seq 0 nIter)) (nIter - 1)
                    = Some (sample (nIter - 1)%nat))
      by (apply nth_error_map_seq; lia).
    destruct (running_maximum _ _ _ Hnum Hlast) as (v & Hv & Hall & _).
    destruct (mean_numeric adsorbent pollutant
                (trial_pH random phRange j) (trial_conc random concRange j)
                (trial_time random timeRange j) false Hm Hp) as [pb Hpb].
    exists (trial_params random pollutant adsorbent phRange timeRange concRange j),
      {| ConvergencePoint.entry := sample (nIter - 1)%nat;
         ConvergencePoint.bestSoFar := Ext (Num v) |}, v, pb.
    split; [exact Hbest|]. split; [|split; [reflexivity|split]].
    + unfold convergence. rewrite mapi_from_nth, Hlast. cbn [option_map].
      f_equal. f_equal. replace (0 + (nIter - 1) + 1)%nat with (nIter - 1 + 1)%nat by lia.
      exact Hv.
    + exact Hpb.
    + apply (Hall j (sample j) pb); [lia | apply nth_error_map_seq; lia | exact Hpb].
Qed.

Lemma convergence_covers_best_witness :
  exists b pt v pb,
    best (bayesianOptimize two_draws "Cd(II)" "MNCJG" 0 (6, 7) (0, 0) (10, 10) 2)
    = Some b /\
    nth_error
      (convergence
         (history (bayesianOptimize two_draws "Cd(II)" "MNCJG" 0 (6, 7) (0, 0) (10, 10) 2)))
      (2 - 1) = Some pt /\
    ConvergencePoint.bestSoFar pt = Ext (Num v) /\
    Params.predicted b = Num pb /\ pb <= v.
Proof.
  apply (convergence_covers_best two_draws "Cd(II)" "MNCJG" 0 (6, 7) (0, 0) (10, 10) 2);
    [ intros H; discriminate H | intros H; discriminate H | apply two_draws_unit
    | unfold proper_range; simpl; lra | simpl; lra
    | unfold proper_range; simpl; lra | unfold proper_range; simpl; lra | lia ].
Defined.


(* rounding to one or two decimals moves a number of moderate size by at
   most half a unit of the last decimal *)
Lemma toFixedR_1_near (y : R) :
  0 <= y <= 1000000 -> y - 0.05 <= toFixedR 1 y <= y + 0.05.
Proof.
  intros Hy. unfold toFixedR. rewrite (Rabs_pos_eq y) by lra.
  destruct (Rle_dec (10 ^ 21) y) as [H|_]; [lra|].
  destruct (Rle_dec 0 y) as [_|H]; [|lra].
  pose proof (Zfloor_bound (y * 10 ^ 1 + 1 / 2)) as [B1 B2].
  simpl in *. lra.
Qed.

Lemma toFixedR_2_near (y : R) :
  0 <= y <= 1000000 -> y - 0.005 <= toFixedR 2 y <= y + 0.005.
Proof.
  intros Hy. unfold toFixedR. rewrite (Rabs_pos_eq y) by lra.
  destruct (Rle_dec (10 ^ 21) y) as [H|_]; [lra|].
  destruct (Rle_dec 0 y) as [_|H]; [|lra].
  pose proof (Zfloor_bound (y * 10 ^ 2 + 1 / 2)) as [B1 B2].
  simpl in *. lra.
Qed.

(** With every draw in [0, 1) and ranges whose bounds are in order and lie
    between 0 and 1000000, every entry of the history, and the returned
    best, lies in the ranges up to the rounding of the record: the pH
    within 0.01 of its range, the contact time and the concentration within
    0.1 of theirs. *)
Theorem search_samples_in_range (random : nat -> R) (pollutant adsorbent : string)
  (targetRemoval : R) (phRange timeRange concRange : R * R) (nIter : nat) :
  let result :=
    bayesianOptimize random pollutant adsorbent targetRemoval phRange timeRange
      concRange nIter in
  unit_draws random ->
  proper_range phRange -> snd phRange <= 1000000 ->
  proper_range timeRange -> snd timeRange <= 1000000 ->
  proper_range concRange -> snd concRange <= 1000000 ->
  Forall (fun e =>
    fst phRange - 0.01 <= Sample.pH e <= snd phRange + 0.01 /\
    fst timeRange - 0.1 <= Sample.time e <= snd timeRange + 0.1 /\
    fst concRange - 0.1 <= Sample.concentration e <= snd concRange + 0.1)
    (history result) /\
  forall b, best result = Some b ->
    fst phRange - 0.01 <= Params.pH b <= snd phRange + 0.01 /\
    fst timeRange - 0.1 <= Params.time b <= snd timeRange + 0.1 /\
    fst concRange - 0.1 <= Params.concentration b <= snd concRange + 0.1.
Proof.
  intros result Hu HpH HpHb Ht Htb Hc Hcb. subst result.
  unfold proper_range in *.
  assert (B : forall i,
    fst phRange - 0.01 <= toFixedR 2 (trial_pH random phRange i)
      <= snd phRange + 0.01 /\
    fst timeRange - 0.1 <= toFixedR 1 (trial_time random timeRange i)
      <= snd timeRange + 0.1 /\
    fst concRange - 0.1 <= toFixedR 1 (trial_conc random concRange i)
      <= snd concRange + 0.1).
  { intros i. unfold trial_pH, trial_time, trial_conc.
    pose proof (draw_in_range _ _ _ (proj2 HpH) (Hu (3 * i)%nat)) as D1.
    pose proof (draw_in_range _ _ _ (proj2 Ht) (Hu (3 * i + 1)%nat)) as D2.
    pose proof (draw_in_range _ _ _ (proj2 Hc) (Hu (3 * i + 2)%nat)) as D3.
    pose proof (toFixedR_2_near
                  (fst phRange + random (3 * i)%nat * (snd phRange - fst phRange))
                  ltac:(lra)).
    pose proof (toFixedR_1_near
                  (fst timeRange + random (3 * i + 1)%nat * (snd timeRange - fst timeRange))
                  ltac:(lra)).
    pose proof (toFixedR_1_near
                  (fst concRange + random (3 * i + 2)%nat * (snd concRange - fst concRange))
                  ltac:(lra)).
    lra. }
  split.
  - rewrite search_history. apply Forall_forall. intros e He.
    apply in_map_iff in He. destruct He as (i & <- & _). apply B.
  - intros b Hb. rewrite search_best in Hb.
    destruct (run_best random pollutant adsorbent targetRemoval phRange timeRange
                concRange nIter) as [(E & _)|(j & s & _ & E & _)];
      rewrite E in Hb; [discriminate|].
    injection Hb as <-. apply B.
Qed.

Lemma search_samples_in_range_witness :
  Forall (fun e =>
    fst (6, 7) - 0.01 <= Sample.pH e <= snd (6, 7) + 0.01 /\
    fst (0, 0) - 0.1 <= Sample.time e <= snd (0, 0) + 0.1 /\
    fst (10, 10) - 0.1 <= Sample.concentration e <= snd (10, 10) + 0.1)
    (history (bayesianOptimize two_draws "Cd(II)" "MNCJG" 0 (6, 7) (0, 0) (10, 10) 2)) /\
  forall b,
    best (bayesianOptimize two_draws "Cd(II)" "MNCJG" 0 (6, 7) (0, 0) (10, 10) 2)
    = Some b ->
    fst (6, 7) - 0.01 <= Params.pH b <= snd (6, 7) + 0.01 /\
    fst (0, 0) - 0.1 <= Params.time b <= snd (0, 0) + 0.1 /\
    fst (10, 10) - 0.1 <= Params.concentration b <= snd (10, 10) + 0.1.
Proof.
  apply (search_samples_in_range two_draws "Cd(II)" "MNCJG" 0 (6, 7) (0, 0) (10, 10) 2);
    [ apply two_draws_unit
    | unfold proper_range; simpl; lra | simpl; lra
    | unfold proper_range; simpl; lra | simpl; lra
    | unfold proper_range; simpl; lra | simpl; lra ].
Defined.
